(** * hyspace front end: the real-time client hooks

    A shallow embedding of two React hooks of the dashboard,

    - [useRealtime] (frontend/src/hooks/useRealtime.ts): the WebSocket
      connection manager and the reducer that folds inbound stream
      messages into bounded client state;
    - [useAIInsight] (hooks/useAIInsight.ts): the cancellable, cached,
      incrementally consumed streaming text request.

    JavaScript strings are modelled by [string]; one character stands
    for one UTF-16 code unit (the code units below 256).  Values produced
    by [JSON.parse] are modelled by [JValue]; [undefined] is [None] in
    [JSVal].  Built-ins whose results depend on text outside the hooks
    ([JSON.parse], [JSON.stringify], string conversion of non-strings)
    are parameters of the sections that use them. *)

From Stdlib Require Import ZArith Ascii String List Lia.
From stdpp Require Import base option list strings gmap pretty.

Local Open Scope string_scope.
Local Set Warnings "-register-all".

(** ** JavaScript values and string built-ins *)

Module JS.

Inductive JValue : Type :=
  | JNull
  | JBool (b : bool)
  | JNum (n : Z)
  | JStr (s : string)
  | JArr (items : list JValue)
  | JObj (props : list (string * JValue)).

(** A JavaScript value that may be [undefined]. *)
Definition JSVal : Type := option JValue.

(** An object as the list of its own properties. *)
Definition JObject : Type := list (string * JValue).

(** [ToBoolean]: the test performed by [if (v)] and by [||]. *)
Definition truthy (v : JSVal) : bool :=
  match v with
  | None => false
  | Some JNull => false
  | Some (JBool b) => b
  | Some (JNum n) => negb (n =? 0)%Z
  | Some (JStr s) => negb (String.eqb s "")
  | Some (JArr _) => true
  | Some (JObj _) => true
  end.

(** [o.name] on an object: the first own property of that name,
    [undefined] when there is none. *)
Fixpoint get (o : JObject) (name : string) : JSVal :=
  match o with
  | [] => None
  | (k, v) :: rest => if String.eqb k name then Some v else get rest name
  end.

(** The outcome of evaluating [v.name] on a parsed value. *)
Inductive Access : Type :=
  | Throws                 (* TypeError: property read on null *)
  | Value (v : JSVal).

Definition member (parsed : JValue) (name : string) : Access :=
  match parsed with
  | JNull => Throws
  | JObj props => Value (get props name)
  | _ => Value None
  end.

(** [SameValueZero], the key comparison of [Map].  Objects and arrays
    compare by identity; two values that come out of [JSON.parse] are
    never the same object, so the comparison is [false] for them. *)
Definition SameValueZero (x y : JSVal) : bool :=
  match x, y with
  | None, None => true
  | Some JNull, Some JNull => true
  | Some (JBool a), Some (JBool b) => Bool.eqb a b
  | Some (JNum a), Some (JNum b) => (a =? b)%Z
  | Some (JStr a), Some (JStr b) => String.eqb a b
  | _, _ => false
  end.

(** [a === s] for a string [s]. *)
Definition strict_eq_string (a : JSVal) (s : string) : bool :=
  match a with
  | Some (JStr a') => String.eqb a' s
  | _ => false
  end.

(** *** [Map], insertion ordered *)

Definition Map (V : Type) : Type := list (JSVal * V).

Fixpoint Map_set {V} (k : JSVal) (v : V) (m : Map V) : Map V :=
  match m with
  | [] => [(k, v)]
  | (k', v') :: rest =>
      if SameValueZero k' k then (k', v) :: rest
      else (k', v') :: Map_set k v rest
  end.

Fixpoint Map_get {V} (k : JSVal) (m : Map V) : option V :=
  match m with
  | [] => None
  | (k', v') :: rest =>
      if SameValueZero k' k then Some v' else Map_get k rest
  end.

Definition Map_values {V} (m : Map V) : list V := m.*2.

(** The entries of [m] stored under a key equal to [k]. *)
Definition Map_entries_of {V} (k : JSVal) (m : Map V) : list (JSVal * V) :=
  List.filter (fun e => SameValueZero (fst e) k) m.

(** No two entries of a [Map] have the same key. *)
Fixpoint Map_ok {V} (m : Map V) : Prop :=
  match m with
  | [] => True
  | (k, _) :: rest => Map_entries_of k rest = [] /\ Map_ok rest
  end.

(** *** Strings *)

(** [s.startsWith(p)] *)
Fixpoint startsWith (s p : string) : bool :=
  match p, s with
  | EmptyString, _ => true
  | String _ _, EmptyString => false
  | String b p', String a s' => if Ascii.eqb a b then startsWith s' p' else false
  end.

(** [s.slice(n)] for [0 <= n] *)
Fixpoint slice_from (n : nat) (s : string) : string :=
  match n, s with
  | O, _ => s
  | S n', EmptyString => EmptyString
  | S n', String _ s' => slice_from n' s'
  end.

(** [s.slice(0, n)] for [0 <= n] *)
Fixpoint slice_to (n : nat) (s : string) : string :=
  match n, s with
  | O, _ => EmptyString
  | S n', EmptyString => EmptyString
  | S n', String a s' => String a (slice_to n' s')
  end.

(** White space and line terminators among the code units below 256:
    TAB, LF, VT, FF, CR, SPACE and NBSP. *)
Definition is_space (a : ascii) : bool :=
  let n := nat_of_ascii a in
  (Nat.leb 9 n && Nat.leb n 13) || Nat.eqb n 32 || Nat.eqb n 160.

Fixpoint trim_start (s : string) : string :=
  match s with
  | EmptyString => EmptyString
  | String a s' => if is_space a then trim_start s' else s
  end.

(** Drops the trailing white space: a character is kept when it is not
    a space or when something is kept after it. *)
Fixpoint trim_end (s : string) : string :=
  match s with
  | EmptyString => EmptyString
  | String a s' =>
      match trim_end s' with
      | EmptyString => if is_space a then EmptyString else String a EmptyString
      | t => String a t
      end
  end.

(** [s.trim()] *)
Definition trim (s : string) : string := trim_end (trim_start s).

(** [s.split('\n')]: the pieces between line feeds; never empty. *)
Fixpoint split_lines (s : string) : list string :=
  match s with
  | EmptyString => [EmptyString]
  | String a s' =>
      if Ascii.eqb a "010"%char then EmptyString :: split_lines s'
      else match split_lines s' with
           | [] => [String a EmptyString]
           | l :: ls => String a l :: ls
           end
  end.

End JS.

Import JS.

(** ** useRealtime: the data model *)

Module Realtime.

Inductive ConnectionStatus : Type :=
  | connecting
  | connected
  | disconnected
  | reconnecting.

(** What [new Date()] returns: milliseconds since the epoch. *)
Definition Date : Type := Z.

(** A frame as [JSON.parse] returns it.  [stream_type] is whatever string
    the server sent, [data] the payload object; the casts to
    [YieldUpdate], [EquipmentStatus], ... do nothing at run time. *)
Record StreamMessage : Type := {
  message_id : string;
  stream_type : string;
  timestamp : string;
  data : JObject;
  priority : Z
}.

Record RealtimeState : Type := {
  connectionStatus : ConnectionStatus;
  connectionId : option JValue;          (* [None] is [null] *)
  lastYieldUpdate : option JObject;
  equipmentStatuses : Map JObject;
  recentWIPMovements : list JObject;
  activeAlerts : list JObject;
  metrics : option JObject;
  messageCount : nat;
  lastMessageAt : option Date
}.

(** The argument of [useState]. *)
Definition initialState : RealtimeState := {|
  connectionStatus := disconnected;
  connectionId := None;
  lastYieldUpdate := None;
  equipmentStatuses := [];
  recentWIPMovements := [];
  activeAlerts := [];
  metrics := None;
  messageCount := 0;
  lastMessageAt := None
|}.

(** [{ ...prev, field: v }] for each field that the hook overwrites. *)
Definition with_connectionStatus (v : ConnectionStatus) (s : RealtimeState) :=
  {| connectionStatus := v; connectionId := connectionId s;
     lastYieldUpdate := lastYieldUpdate s; equipmentStatuses := equipmentStatuses s;
     recentWIPMovements := recentWIPMovements s; activeAlerts := activeAlerts s;
     metrics := metrics s; messageCount := messageCount s;
     lastMessageAt := lastMessageAt s |}.

Definition with_connectionId (v : option JValue) (s : RealtimeState) :=
  {| connectionStatus := connectionStatus s; connectionId := v;
     lastYieldUpdate := lastYieldUpdate s; equipmentStatuses := equipmentStatuses s;
     recentWIPMovements := recentWIPMovements s; activeAlerts := activeAlerts s;
     metrics := metrics s; messageCount := messageCount s;
     lastMessageAt := lastMessageAt s |}.

Definition with_lastYieldUpdate (v : option JObject) (s : RealtimeState) :=
  {| connectionStatus := connectionStatus s; connectionId := connectionId s;
     lastYieldUpdate := v; equipmentStatuses := equipmentStatuses s;
     recentWIPMovements := recentWIPMovements s; activeAlerts := activeAlerts s;
     metrics := metrics s; messageCount := messageCount s;
     lastMessageAt := lastMessageAt s |}.

Definition with_equipmentStatuses (v : Map JObject) (s : RealtimeState) :=
  {| connectionStatus := connectionStatus s; connectionId := connectionId s;
     lastYieldUpdate := lastYieldUpdate s; equipmentStatuses := v;
     recentWIPMovements := recentWIPMovements s; activeAlerts := activeAlerts s;
     metrics := metrics s; messageCount := messageCount s;
     lastMessageAt := lastMessageAt s |}.

Definition with_recentWIPMovements (v : list JObject) (s : RealtimeState) :=
  {| connectionStatus := connectionStatus s; connectionId := connectionId s;
     lastYieldUpdate := lastYieldUpdate s; equipmentStatuses := equipmentStatuses s;
     recentWIPMovements := v; activeAlerts := activeAlerts s;
     metrics := metrics s; messageCount := messageCount s;
     lastMessageAt := lastMessageAt s |}.

Definition with_activeAlerts (v : list JObject) (s : RealtimeState) :=
  {| connectionStatus := connectionStatus s; connectionId := connectionId s;
     lastYieldUpdate := lastYieldUpdate s; equipmentStatuses := equipmentStatuses s;
     recentWIPMovements := recentWIPMovements s; activeAlerts := v;
     metrics := metrics s; messageCount := messageCount s;
     lastMessageAt := lastMessageAt s |}.

Definition with_metrics (v : option JObject) (s : RealtimeState) :=
  {| connectionStatus := connectionStatus s; connectionId := connectionId s;
     lastYieldUpdate := lastYieldUpdate s; equipmentStatuses := equipmentStatuses s;
     recentWIPMovements := recentWIPMovements s; activeAlerts := activeAlerts s;
     metrics := v; messageCount := messageCount s;
     lastMessageAt := lastMessageAt s |}.

(** [{ ...prev, messageCount: prev.messageCount + 1, lastMessageAt: new Date() }] *)
Definition counted (now : Date) (prev : RealtimeState) :=
  {| connectionStatus := connectionStatus prev; connectionId := connectionId prev;
     lastYieldUpdate := lastYieldUpdate prev; equipmentStatuses := equipmentStatuses prev;
     recentWIPMovements := recentWIPMovements prev; activeAlerts := activeAlerts prev;
     metrics := metrics prev; messageCount := messageCount prev + 1;
     lastMessageAt := Some now |}.

(** Calls of the optional callbacks, in the order they are made. *)
Inductive Effect : Type :=
  | OnConnect
  | OnDisconnect
  | OnMessage (message : StreamMessage)
  | OnAlert (alert : JObject)
  | ConsoleError.

(** ** useRealtime: the message reducer *)

(** [handleMessage]: the state updater, and the callbacks it makes. *)
Definition handleMessage (now : Date) (message : StreamMessage)
    (prev : RealtimeState) : RealtimeState * list Effect :=
  let newState := counted now prev in
  let ty := stream_type message in
  if String.eqb ty "heartbeat" then
    (if truthy (get (data message) "connection_id")
     then with_connectionId (get (data message) "connection_id") newState
     else newState, [])
  else if String.eqb ty "yield_update" then
    (with_lastYieldUpdate (Some (data message)) newState, [])
  else if String.eqb ty "equipment_status" then
    let equipStatus := data message in
    let newEquipMap :=
      Map_set (get equipStatus "equipment_id") equipStatus (equipmentStatuses prev) in
    (with_equipmentStatuses newEquipMap newState, [])
  else if String.eqb ty "wip_movement" then
    let wipMovement := data message in
    (with_recentWIPMovements (take 50 (wipMovement :: recentWIPMovements prev)) newState, [])
  else if String.eqb ty "alert" then
    let alert := data message in
    (with_activeAlerts (take 100 (alert :: activeAlerts prev)) newState, [OnAlert alert])
  else if String.eqb ty "metrics" then
    (with_metrics (Some (data message)) newState, [])
  else
    (newState, []).

(** The state after a sequence of frames, oldest first. *)
Definition handleMessages (frames : list (Date * StreamMessage))
    (s : RealtimeState) : RealtimeState :=
  foldl (fun acc f => fst (handleMessage (fst f) (snd f) acc)) s frames.

(** [clearAlerts] and [dismissAlert] on the state. *)
Definition clearAlerts_state (prev : RealtimeState) : RealtimeState :=
  with_activeAlerts [] prev.

Definition dismissAlert_state (alertId : string) (prev : RealtimeState) : RealtimeState :=
  with_activeAlerts
    (List.filter (fun a => negb (strict_eq_string (get a "alert_id") alertId))
       (activeAlerts prev))
    prev.

(** The views computed on every render. *)
Definition has_string (field value : string) (o : JObject) : bool :=
  strict_eq_string (get o field) value.

Definition criticalAlerts (s : RealtimeState) : list JObject :=
  List.filter (has_string "severity" "CRITICAL") (activeAlerts s).

Definition runningEquipment (s : RealtimeState) : list JObject :=
  List.filter (has_string "status" "RUNNING") (Map_values (equipmentStatuses s)).

(** ** useRealtime: the connection manager *)

Record Options : Type := {
  subscriptions : list string;
  reconnectInterval : nat;
  maxReconnectAttempts : nat
}.

(** [WebSocket.readyState] *)
Inductive ReadyState : Type :=
  | CONNECTING
  | OPEN
  | CLOSING
  | CLOSED.

(** One mounted hook: the React state, the three refs, and what the
    browser holds for it: every [WebSocket] constructed so far (a socket
    is named by its position) and the timeouts that are still pending.
    Timer handles are positive numbers, handed out in order. *)
Record Hook : Type := {
  state : RealtimeState;
  wsRef : option nat;
  reconnectAttemptsRef : nat;
  reconnectTimeoutRef : option nat;
  sockets : list ReadyState;
  timers : list nat;
  nextTimer : nat;
  effects : list Effect
}.

Definition mount : Hook := {|
  state := initialState;
  wsRef := None;
  reconnectAttemptsRef := 0;
  reconnectTimeoutRef := None;
  sockets := [];
  timers := [];
  nextTimer := 1;
  effects := []
|}.

(** [setState(f)] *)
Definition setState (f : RealtimeState -> RealtimeState) (h : Hook) : Hook :=
  {| state := f (state h); wsRef := wsRef h;
     reconnectAttemptsRef := reconnectAttemptsRef h;
     reconnectTimeoutRef := reconnectTimeoutRef h;
     sockets := sockets h; timers := timers h; nextTimer := nextTimer h;
     effects := effects h |}.

Definition set_reconnectAttempts (n : nat) (h : Hook) : Hook :=
  {| state := state h; wsRef := wsRef h;
     reconnectAttemptsRef := n;
     reconnectTimeoutRef := reconnectTimeoutRef h;
     sockets := sockets h; timers := timers h; nextTimer := nextTimer h;
     effects := effects h |}.

Definition call (e : list Effect) (h : Hook) : Hook :=
  {| state := state h; wsRef := wsRef h;
     reconnectAttemptsRef := reconnectAttemptsRef h;
     reconnectTimeoutRef := reconnectTimeoutRef h;
     sockets := sockets h; timers := timers h; nextTimer := nextTimer h;
     effects := effects h ++ e |}.

(** The browser changes the ready state of socket [ws]. *)
Definition set_readyState (ws : nat) (r : ReadyState) (h : Hook) : Hook :=
  {| state := state h; wsRef := wsRef h;
     reconnectAttemptsRef := reconnectAttemptsRef h;
     reconnectTimeoutRef := reconnectTimeoutRef h;
     sockets := <[ws := r]> (sockets h); timers := timers h;
     nextTimer := nextTimer h; effects := effects h |}.

(** [wsRef.current = new WebSocket(...)]: the new socket is CONNECTING. *)
Definition new_WebSocket (h : Hook) : Hook :=
  {| state := state h; wsRef := Some (length (sockets h));
     reconnectAttemptsRef := reconnectAttemptsRef h;
     reconnectTimeoutRef := reconnectTimeoutRef h;
     sockets := sockets h ++ [CONNECTING]; timers := timers h;
     nextTimer := nextTimer h; effects := effects h |}.

(** [reconnectTimeoutRef.current = setTimeout(...)]: a new timeout is
    pending and the ref holds its handle; nothing is cleared. *)
Definition setTimeout_reconnect (h : Hook) : Hook :=
  {| state := state h; wsRef := wsRef h;
     reconnectAttemptsRef := reconnectAttemptsRef h;
     reconnectTimeoutRef := Some (nextTimer h);
     sockets := sockets h; timers := timers h ++ [nextTimer h];
     nextTimer := S (nextTimer h); effects := effects h |}.

(** [clearTimeout(t)], also what the browser does when [t] fires. *)
Definition remove_timer (t : nat) (h : Hook) : Hook :=
  {| state := state h; wsRef := wsRef h;
     reconnectAttemptsRef := reconnectAttemptsRef h;
     reconnectTimeoutRef := reconnectTimeoutRef h;
     sockets := sockets h;
     timers := List.filter (fun t' => negb (Nat.eqb t' t)) (timers h);
     nextTimer := nextTimer h; effects := effects h |}.

Definition clear_wsRef (h : Hook) : Hook :=
  {| state := state h; wsRef := None;
     reconnectAttemptsRef := reconnectAttemptsRef h;
     reconnectTimeoutRef := reconnectTimeoutRef h;
     sockets := sockets h; timers := timers h; nextTimer := nextTimer h;
     effects := effects h |}.

(** [wsRef.current?.readyState === WebSocket.OPEN] *)
Definition current_is_open (h : Hook) : bool :=
  match wsRef h with
  | None => false
  | Some ws => match sockets h !! ws with
               | Some OPEN => true
               | _ => false
               end
  end.

(** [connect] *)
Definition connect (h : Hook) : Hook :=
  if current_is_open h then h
  else new_WebSocket (setState (with_connectionStatus connecting) h).

(** [ws.onopen] *)
Definition onopen (h : Hook) : Hook :=
  call [OnConnect]
    (set_reconnectAttempts 0 (setState (with_connectionStatus connected) h)).

(** [ws.onmessage]; [parsed] is what [JSON.parse(event.data)] gives,
    [None] when it throws. *)
Definition onmessage (now : Date) (parsed : option StreamMessage) (h : Hook) : Hook :=
  match parsed with
  | Some message =>
      let r := handleMessage now message (state h) in
      call (snd r ++ [OnMessage message]) (setState (fun _ => fst r) h)
  | None => call [ConsoleError] h
  end.

(** [ws.onclose] *)
Definition onclose (o : Options) (h : Hook) : Hook :=
  let h1 := setState (fun prev => with_connectionId None
                                    (with_connectionStatus disconnected prev)) h in
  let h2 := call [OnDisconnect] h1 in
  if (reconnectAttemptsRef h2 <? maxReconnectAttempts o)%nat then
    setTimeout_reconnect (setState (with_connectionStatus reconnecting) h2)
  else h2.

(** The callback given to [setTimeout] in [ws.onclose]. *)
Definition reconnect_callback (h : Hook) : Hook :=
  connect (set_reconnectAttempts (S (reconnectAttemptsRef h)) h).

(** [ws.close()]: an open or connecting socket starts closing; the close
    event comes later. *)
Definition close_socket (ws : nat) (h : Hook) : Hook :=
  match sockets h !! ws with
  | Some CONNECTING | Some OPEN => set_readyState ws CLOSING h
  | _ => h
  end.

(** [disconnect] *)
Definition disconnect (o : Options) (h : Hook) : Hook :=
  let h1 := match reconnectTimeoutRef h with
            | Some t => remove_timer t h
            | None => h
            end in
  let h2 := set_reconnectAttempts (maxReconnectAttempts o) h1 in
  let h3 := match wsRef h2 with
            | Some ws => close_socket ws h2
            | None => h2
            end in
  clear_wsRef h3.

Definition clearAlerts (h : Hook) : Hook := setState clearAlerts_state h.

Definition dismissAlert (alertId : string) (h : Hook) : Hook :=
  setState (dismissAlert_state alertId) h.

(** What can happen to a mounted hook: a call by the component, or an
    event of one of its sockets or timers. *)
Inductive Event : Type :=
  | CallConnect
  | CallDisconnect
  | CallClearAlerts
  | CallDismissAlert (alertId : string)
  | WsOpen (ws : nat)
  | WsMessage (ws : nat) (now : Date) (parsed : option StreamMessage)
  | WsClose (ws : nat)
  | TimerFires (t : nat).

(** One event; [None] when the browser cannot deliver it: a socket opens
    once, while CONNECTING; delivers frames while OPEN; closes once; and
    only a pending timeout fires. *)
Definition step (o : Options) (e : Event) (h : Hook) : option Hook :=
  match e with
  | CallConnect => Some (connect h)
  | CallDisconnect => Some (disconnect o h)
  | CallClearAlerts => Some (clearAlerts h)
  | CallDismissAlert alertId => Some (dismissAlert alertId h)
  | WsOpen ws =>
      match sockets h !! ws with
      | Some CONNECTING => Some (onopen (set_readyState ws OPEN h))
      | _ => None
      end
  | WsMessage ws now parsed =>
      match sockets h !! ws with
      | Some OPEN => Some (onmessage now parsed h)
      | _ => None
      end
  | WsClose ws =>
      match sockets h !! ws with
      | Some CONNECTING | Some OPEN | Some CLOSING =>
          Some (onclose o (set_readyState ws CLOSED h))
      | _ => None
      end
  | TimerFires t =>
      if existsb (Nat.eqb t) (timers h)
      then Some (reconnect_callback (remove_timer t h))
      else None
  end.

Fixpoint run (o : Options) (es : list Event) (h : Hook) : option Hook :=
  match es with
  | [] => Some h
  | e :: es' => match step o e h with
                | Some h' => run o es' h'
                | None => None
                end
  end.

(** The events that come from the transport and the timers, as opposed
    to the calls of the component. *)
Definition automatic (e : Event) : bool :=
  match e with
  | WsOpen _ | WsMessage _ _ _ | WsClose _ | TimerFires _ => true
  | _ => false
  end.

(** The number of [WebSocket]s constructed so far. *)
Definition connections (h : Hook) : nat := length (sockets h).

(** The events of the connection life cycle: everything but frames and
    the two calls that edit the alert list. *)
Definition lifecycle (e : Event) : bool :=
  match e with
  | CallConnect | CallDisconnect | WsOpen _ | WsClose _ | TimerFires _ => true
  | _ => false
  end.

(** The members of [StreamType]. *)
Definition StreamTypes : list string :=
  ["yield_update"; "equipment_status"; "wip_movement"; "alert"; "metrics";
   "heartbeat"].

(** The defaults of [UseRealtimeOptions]. *)
Definition defaultOptions : Options := {|
  subscriptions := ["yield_update"; "equipment_status"; "wip_movement"; "alert";
                    "metrics"];
  reconnectInterval := 3000;
  maxReconnectAttempts := 5
|}.

(** The stored stream data: every field of the state but the connection
    status and the connection id. *)
Definition same_stream_data (s s' : RealtimeState) : Prop :=
  lastYieldUpdate s' = lastYieldUpdate s /\
  equipmentStatuses s' = equipmentStatuses s /\
  recentWIPMovements s' = recentWIPMovements s /\
  activeAlerts s' = activeAlerts s /\
  metrics s' = metrics s /\
  messageCount s' = messageCount s /\
  lastMessageAt s' = lastMessageAt s.

(** The state of a hook whose only call was one [connect], under
    transport and timer events: the attempts are within the maximum, the
    ref holds the newest socket, every older socket is closed, and a
    retry is pending only between a close and the next socket. *)
Definition chain_inv (o : Options) (h : Hook) : Prop :=
  reconnectAttemptsRef h <= maxReconnectAttempts o /\
  (exists ws, wsRef h = Some ws /\ S ws = length (sockets h)) /\
  (forall i r, sockets h !! i = Some r -> S i < length (sockets h) -> r = CLOSED) /\
  (timers h = [] \/
   (exists t, timers h = [t]) /\
   reconnectAttemptsRef h < maxReconnectAttempts o /\
   (forall i r, sockets h !! i = Some r -> r = CLOSED)).

(** Frames used in the examples. *)
Definition frame (ty : string) (d : JObject) : StreamMessage :=
  {| message_id := "m"; stream_type := ty; timestamp := "t"; data := d;
     priority := 0 |}.

Definition equipment (id status previous : string) : JObject :=
  [("equipment_id", JStr id); ("status", JStr status);
   ("previous_status", JStr previous)].

(** ** useRealtime: control frames and the returned views *)

(** The objects that [subscribe], [unsubscribe], [requestMetrics] and
    [ping] serialize and give to [ws.send]. *)
Inductive ControlFrame : Type :=
  | Subscribe (streams : list string)
  | Unsubscribe (streams : list string)
  | RequestMetrics
  | Ping.

(** [if (wsRef.current?.readyState === WebSocket.OPEN) wsRef.current.send(f)]:
    the frames given to the socket. *)
Definition send_if_open (f : ControlFrame) (h : Hook) : list ControlFrame :=
  if current_is_open h then [f] else [].

Definition subscribe (streams : list string) (h : Hook) : list ControlFrame :=
  send_if_open (Subscribe streams) h.

Definition unsubscribe (streams : list string) (h : Hook) : list ControlFrame :=
  send_if_open (Unsubscribe streams) h.

Definition requestMetrics (h : Hook) : list ControlFrame :=
  send_if_open RequestMetrics h.

Definition ping (h : Hook) : list ControlFrame := send_if_open Ping h.

(** [isConnected] *)
Definition isConnected (h : Hook) : bool :=
  match connectionStatus (state h) with
  | connected => true
  | _ => false
  end.

Definition errorAlerts (s : RealtimeState) : list JObject :=
  List.filter (has_string "severity" "ERROR") (activeAlerts s).

Definition warningAlerts (s : RealtimeState) : list JObject :=
  List.filter (has_string "severity" "WARNING") (activeAlerts s).

Definition downEquipment (s : RealtimeState) : list JObject :=
  List.filter (has_string "status" "DOWN") (Map_values (equipmentStatuses s)).

(** The ready state of the socket in [wsRef], if any. *)
Definition current_readyState (h : Hook) : option ReadyState :=
  match wsRef h with
  | Some ws => sockets h !! ws
  | None => None
  end.

(** ** What a sequence of events delivers *)

(** The frame that an event hands to [handleMessage], if any. *)
Definition parsed_frame (e : Event) : option StreamMessage :=
  match e with
  | WsMessage _ _ (Some message) => Some message
  | _ => None
  end.

(** The payloads of the [alert] frames among the events, oldest first. *)
Definition delivered_alerts (es : list Event) : list JObject :=
  omap (fun e => match parsed_frame e with
                 | Some message =>
                     if String.eqb (stream_type message) "alert"
                     then Some (data message) else None
                 | None => None
                 end) es.

(** The payloads that [onAlert] was called with, oldest first. *)
Definition onAlert_calls (l : list Effect) : list JObject :=
  omap (fun e => match e with OnAlert a => Some a | _ => None end) l.

(** The frames that [onMessage] was called with, oldest first. *)
Definition onMessage_calls (l : list Effect) : list StreamMessage :=
  omap (fun e => match e with OnMessage m => Some m | _ => None end) l.

(** The events that edit the alert list on behalf of the component. *)
Definition edits_alerts (e : Event) : bool :=
  match e with
  | CallClearAlerts | CallDismissAlert _ => true
  | _ => false
  end.

(** ** useRealtimeStream and useRealtimeAlerts *)

(** [useRealtimeStream]: the [data] and [lastUpdate] slots, driven by
    the [onMessage] callback; [now] is what [new Date()] gives at the
    call. *)
Definition stream_onMessage (streamType : string) (now : Date)
    (message : StreamMessage) (slot : option JObject * option Date)
    : option JObject * option Date :=
  if String.eqb (stream_type message) streamType
  then (Some (data message), Some now)
  else slot.

Definition useRealtimeStream (streamType : string) (initialValue : option JObject)
    (calls : list (Date * StreamMessage)) : option JObject * option Date :=
  foldl (fun slot c => stream_onMessage streamType (fst c) (snd c) slot)
    (initialValue, None) calls.

(** [useRealtimeAlerts]: the updater that its [onAlert] callback gives
    to [setAlerts]; [maxAlerts] is a natural number. *)
Definition alerts_onAlert (maxAlerts : nat) (alert : JObject)
    (prev : list JObject) : list JObject :=
  take maxAlerts (alert :: prev).

(** The callbacks made between two states of a hook. *)
Definition called (h h' : Hook) : list Effect :=
  drop (length (effects h)) (effects h').

(** In a hook whose only call was one [connect], the status tells the
    state of the transport. *)
Definition status_inv (h : Hook) : Prop :=
  match connectionStatus (state h) with
  | connecting => current_readyState h = Some CONNECTING /\ timers h = []
  | connected => current_readyState h = Some OPEN /\ timers h = []
  | reconnecting => current_readyState h = Some CLOSED /\ timers h <> []
  | disconnected => current_readyState h = Some CLOSED /\ timers h = []
  end.

(** The payloads of the [equipment_status] frames among the events. *)
Definition delivered_equipment (es : list Event) : list JObject :=
  omap (fun e => match parsed_frame e with
                 | Some message =>
                     if String.eqb (stream_type message) "equipment_status"
                     then Some (data message) else None
                 | None => None
                 end) es.

(** A pending retry is the one whose handle is in the ref. *)
Definition timer_in_ref (h : Hook) : Prop :=
  forall t, In t (timers h) -> reconnectTimeoutRef h = Some t.

(** The refs and the browser side of a hook after [disconnect]: no
    retry is pending, the counter is at the maximum, the ref is empty,
    and no socket can open or deliver a frame any more. *)
Definition disconnected_inv (o : Options) (h : Hook) : Prop :=
  timers h = [] /\
  reconnectAttemptsRef h = maxReconnectAttempts o /\
  wsRef h = None /\
  (forall i r, sockets h !! i = Some r -> r = CLOSED \/ r = CLOSING).

(** A stored connection id belongs to a socket that has opened and whose
    close event has not come. *)
Definition connection_id_inv (h : Hook) : Prop :=
  connectionId (state h) = None \/
  exists ws, sockets h !! ws = Some OPEN \/ sockets h !! ws = Some CLOSING.

End Realtime.

(** ** useRealtimeAlerts: the alert list kept beside useRealtime *)

Module RealtimeAlerts.
Import Realtime.

(** The options that [useRealtimeAlerts] gives to [useRealtime]; the
    rest are the defaults. *)
Definition options : Options := {|
  subscriptions := ["alert"];
  reconnectInterval := 3000;
  maxReconnectAttempts := 5
|}.

(** One mounted [useRealtimeAlerts]: its own [alerts] slot and the
    [useRealtime] hook inside. *)
Record Hook : Type := {
  alerts : list JObject;
  inside : Realtime.Hook
}.

Definition mount : Hook := {| alerts := []; inside := Realtime.mount |}.

(** [setAlerts(f)] *)
Definition setAlerts (f : list JObject -> list JObject) (w : Hook) : Hook :=
  {| alerts := f (alerts w); inside := inside w |}.

(** The [onAlert] callback given to the hook inside. *)
Definition onAlert (maxAlerts : nat) (alert : JObject) (w : Hook) : Hook :=
  setAlerts (alerts_onAlert maxAlerts alert) w.

(** [clearAlerts]: it empties the list of this hook, not the list of the
    hook inside. *)
Definition clearAlerts (w : Hook) : Hook := setAlerts (fun _ => []) w.

Definition isConnected (w : Hook) : bool := Realtime.isConnected (inside w).

Definition criticalCount (w : Hook) : nat :=
  length (List.filter (has_string "severity" "CRITICAL") (alerts w)).

Definition errorCount (w : Hook) : nat :=
  length (List.filter (has_string "severity" "ERROR") (alerts w)).

(** What can happen to the hook: an event of the hook inside (its
    sockets and timers, and the calls of [connect] and [disconnect] that
    its effect makes), or the component calls [clearAlerts]. *)
Inductive Event : Type :=
  | Inside (e : Realtime.Event)
  | CallClear.

(** One event.  The hook inside takes its step, and every [onAlert] call
    it makes on the way runs the callback.  The hook returns neither the
    [clearAlerts] nor the [dismissAlert] of the hook inside, so no
    component can call them. *)
Definition step (maxAlerts : nat) (e : Event) (w : Hook) : option Hook :=
  match e with
  | Inside e =>
      if edits_alerts e then None
      else match Realtime.step options e (inside w) with
           | Some h' =>
               Some (foldl (fun w' alert => onAlert maxAlerts alert w')
                       {| alerts := alerts w; inside := h' |}
                       (onAlert_calls (called (inside w) h')))
           | None => None
           end
  | CallClear => Some (clearAlerts w)
  end.

Fixpoint run (maxAlerts : nat) (es : list Event) (w : Hook) : option Hook :=
  match es with
  | [] => Some w
  | e :: es' => match step maxAlerts e w with
                | Some w' => run maxAlerts es' w'
                | None => None
                end
  end.

(** The events of the hook inside, oldest first. *)
Definition inside_events (es : list Event) : list Realtime.Event :=
  omap (fun e => match e with Inside e => Some e | CallClear => None end) es.

(** The events of the hook inside that came after the last call of
    [clearAlerts]. *)
Definition since_clear (es : list Event) : list Realtime.Event :=
  foldl (fun acc e => match e with
                      | Inside e => (acc ++ [e])%list
                      | CallClear => []
                      end) [] es.

(** No call of [clearAlerts] among the events. *)
Definition never_cleared (es : list Event) : bool :=
  forallb (fun e => match e with Inside _ => true | CallClear => false end) es.

End RealtimeAlerts.

(** ** useAIInsight: the streaming text request *)

Module Insight.

Record InsightState : Type := {
  text : string;
  isLoading : bool;
  error : option string
}.

Definition with_text (v : string) (prev : InsightState) : InsightState :=
  {| text := v; isLoading := isLoading prev; error := error prev |}.

(** [{ ...prev, isLoading: false, error: msg }] *)
Definition failed (msg : string) (prev : InsightState) : InsightState :=
  {| text := text prev; isLoading := false; error := Some msg |}.

(** Where a call of [generate] that went to the network is suspended. *)
Inductive Await : Type :=
  | AwaitFetch                          (* [await fetch(...)] *)
  | AwaitErrorBody (status : N)         (* [await response.json().catch(...)] *)
  | AwaitRead (accumulated : string)    (* [await reader.read()] *)
  | Returned.

Record Call : Type := {
  key : string;
  at_await : Await
}.

Section Client.

(** The type of [results], and the text that
    [${JSON.stringify(results)}] interpolates. *)
Context {Results : Type}.
Variable JSON_stringify : Results -> string.

(** [JSON.parse]; [None] when it throws. *)
Variable JSON_parse : string -> option JValue.

(** The string conversion of a value that is not a string. *)
Variable ToString : JValue -> string.

(** The module-level [cache], the state and the ref of one mounted hook,
    the calls of [generate] that got past the cache (call [i] owns the
    [i]th [AbortController]), and the requests given to [fetch]. *)
Record Client : Type := {
  state : InsightState;
  cache : gmap string string;
  abortRef : option nat;
  calls : list Call;
  requests : list (string * Results)
}.

Definition mount : Client := {|
  state := {| text := ""; isLoading := false; error := None |};
  cache := ∅;
  abortRef := None;
  calls := [];
  requests := []
|}.

Definition setState (f : InsightState -> InsightState) (c : Client) : Client :=
  {| state := f (state c); cache := cache c; abortRef := abortRef c;
     calls := calls c; requests := requests c |}.

Definition cache_set (k v : string) (c : Client) : Client :=
  {| state := state c; cache := <[k := v]> (cache c); abortRef := abortRef c;
     calls := calls c; requests := requests c |}.

(** Call [i] moves to another suspension point. *)
Definition resume_at (i : nat) (a : Await) (c : Client) : Client :=
  {| state := state c; cache := cache c; abortRef := abortRef c;
     calls := alter (fun call => {| key := key call; at_await := a |}) i (calls c);
     requests := requests c |}.

(** [hashKey] *)
Definition hashKey (queryType : string) (results : Results) : string :=
  slice_to 200 (queryType ++ ":" ++ JSON_stringify results).

(** The right operand of [+=] and the argument of [new Error]. *)
Definition to_string (v : JValue) : string :=
  match v with
  | JStr s => s
  | _ => ToString v
  end.

(** The [for (const line of lines)] loop: the accumulator and the state
    after it.  [break] ends this loop. *)
Fixpoint for_lines (lines : list string) (accumulated : string)
    (st : InsightState) : string * InsightState :=
  match lines with
  | [] => (accumulated, st)
  | line :: rest =>
      if negb (startsWith line "data: ") then for_lines rest accumulated st
      else
        let payload := trim (slice_from 6 line) in
        if String.eqb payload "[DONE]" then (accumulated, st)
        else
          match JSON_parse payload with
          | None => for_lines rest accumulated st
          | Some parsed =>
              match member parsed "chunk" with
              | Throws => for_lines rest accumulated st
              | Value None => for_lines rest accumulated st
              | Value (Some chunk) =>
                  if truthy (Some chunk) then
                    let accumulated' := accumulated ++ to_string chunk in
                    for_lines rest accumulated' (with_text accumulated' st)
                  else for_lines rest accumulated st
              end
          end
  end.

(** One turn of the [while (true)] loop on a chunk that was read. *)
Definition on_chunk (value : string) (accumulated : string)
    (st : InsightState) : string * InsightState :=
  for_lines (split_lines value) accumulated st.

(** The whole loop on the chunks of a body, until [done]. *)
Definition read_all (chunks : list string) (accumulated : string)
    (st : InsightState) : string * InsightState :=
  foldl (fun r value => on_chunk value (fst r) (snd r)) (accumulated, st) chunks.

(** [HTTP ${response.status}] *)
Definition http_message (status : N) : string := "HTTP " ++ pretty status.

(** What a suspended call does when its controller is aborted.  [fetch]
    and [reader.read()] reject with an [AbortError], and the [catch]
    returns.  [response.json()] rejects too, but its own [.catch] turns
    the rejection into [{}]: the call goes on to throw [HTTP status],
    which the outer [catch] reports. *)
Definition after_abort (a : Await) (prev : InsightState) : InsightState :=
  match a with
  | AwaitErrorBody status => failed (http_message status) prev
  | _ => prev
  end.

(** [abortRef.current?.abort()]: the current call, if any, is over; the
    result is the update its continuation makes once the caller's
    synchronous code has run. *)
Definition abort_current (c : Client) : Client * (InsightState -> InsightState) :=
  match abortRef c with
  | None => (c, fun prev => prev)
  | Some i =>
      match calls c !! i with
      | Some call => (resume_at i Returned c, after_abort (at_await call))
      | None => (c, fun prev => prev)
      end
  end.

(** [fetch] is called for a new call, which owns a new controller. *)
Definition start_call (k : string) (queryType : string) (results : Results)
    (c : Client) : Client :=
  {| state := state c; cache := cache c;
     abortRef := Some (length (calls c));
     calls := calls c ++ [{| key := k; at_await := AwaitFetch |}];
     requests := requests c ++ [(queryType, results)] |}.

(** [generate], up to its first [await]. *)
Definition generate (queryType : string) (results : Results) (c : Client) : Client :=
  let k := hashKey queryType results in
  let cached := cache c !! k in
  if truthy (JStr <$> cached) then
    setState (fun _ => {| text := default "" cached; isLoading := false;
                          error := None |}) c
  else
    let (c1, continuation) := abort_current c in
    let c2 := setState (fun _ => {| text := ""; isLoading := true;
                                    error := None |}) c1 in
    let c3 := start_call k queryType results c2 in
    setState continuation c3.

(** [clear] *)
Definition clear (c : Client) : Client :=
  let (c1, continuation) := abort_current c in
  let c2 := setState (fun _ => {| text := ""; isLoading := false;
                                  error := None |}) c1 in
  setState continuation c2.

(** [response.ok] *)
Definition ok (status : N) : bool := ((200 <=? status) && (status <=? 299))%N.

Definition no_stream_message : string := "스트리밍을 사용할 수 없습니다.".

(** Calls by the component and the settling of the promises that a call
    awaits: [fetch] resolves with a status and a body or not, or rejects
    with an [Error]; [response.json()] resolves to an object or rejects
    ([None]); [reader.read()] gives a chunk ([value] is its decoded
    text), reports the end, or rejects with an [Error]. *)
Inductive Event : Type :=
  | CallGenerate (queryType : string) (results : Results)
  | CallClear
  | FetchResponds (i : nat) (status : N) (has_body : bool)
  | FetchRejects (i : nat) (message : string)
  | ErrorBodyArrives (i : nat) (errorData : option JObject)
  | ReadYields (i : nat) (value : string)
  | ReadEnds (i : nat)
  | ReadRejects (i : nat) (message : string).

(** The [catch] clause for an error that is not an abort. *)
Definition throw (i : nat) (message : string) (c : Client) : Client :=
  resume_at i Returned (setState (failed message) c).

(** Call [i] resumes; [None] when it does not await that promise. *)
Definition step (e : Event) (c : Client) : option Client :=
  match e with
  | CallGenerate queryType results => Some (generate queryType results c)
  | CallClear => Some (clear c)
  | FetchResponds i status has_body =>
      match calls c !! i with
      | Some {| key := _; at_await := AwaitFetch |} =>
          if negb (ok status) then Some (resume_at i (AwaitErrorBody status) c)
          else if negb has_body then Some (throw i no_stream_message c)
          else Some (resume_at i (AwaitRead "") c)
      | _ => None
      end
  | FetchRejects i message =>
      match calls c !! i with
      | Some {| key := _; at_await := AwaitFetch |} => Some (throw i message c)
      | _ => None
      end
  | ErrorBodyArrives i body =>
      match calls c !! i with
      | Some {| key := _; at_await := AwaitErrorBody status |} =>
          let errorData := default [] body in
          let detail := get errorData "detail" in
          let message := match detail with
                         | Some d => if truthy detail then to_string d
                                     else http_message status
                         | None => http_message status
                         end in
          Some (throw i message c)
      | _ => None
      end
  | ReadYields i value =>
      match calls c !! i with
      | Some {| key := _; at_await := AwaitRead accumulated |} =>
          let r := on_chunk value accumulated (state c) in
          Some (resume_at i (AwaitRead (fst r)) (setState (fun _ => snd r) c))
      | _ => None
      end
  | ReadEnds i =>
      match calls c !! i with
      | Some {| key := k; at_await := AwaitRead accumulated |} =>
          Some (resume_at i Returned
                  (setState (fun _ => {| text := accumulated; isLoading := false;
                                         error := None |})
                     (cache_set k accumulated c)))
      | _ => None
      end
  | ReadRejects i message =>
      match calls c !! i with
      | Some {| key := _; at_await := AwaitRead _ |} => Some (throw i message c)
      | _ => None
      end
  end.

Fixpoint run (es : list Event) (c : Client) : option Client :=
  match es with
  | [] => Some c
  | e :: es' => match step e c with
                | Some c' => run es' c'
                | None => None
                end
  end.

(** The call whose promise an event settles. *)
Definition promise_of (e : Event) : option nat :=
  match e with
  | CallGenerate _ _ | CallClear => None
  | FetchResponds i _ _ | FetchRejects i _ | ErrorBodyArrives i _
  | ReadYields i _ | ReadEnds i | ReadRejects i _ => Some i
  end.

(** A call is in flight while it awaits the network. *)
Definition in_flight (c : Client) (i : nat) : bool :=
  match calls c !! i with
  | Some {| key := _; at_await := Returned |} => false
  | Some _ => true
  | None => false
  end.

End Client.

(** A stand-in for [JSON.parse] that knows one text. *)
Definition parse_only (known : string) (v : JValue) (s : string) : option JValue :=
  if String.eqb s known then Some v else None.

Definition quote : string := String (ascii_of_nat 34) EmptyString.

(** The text of the frame payload [{"chunk":"s"}]. *)
Definition chunk_payload (s : string) : string :=
  "{" ++ quote ++ "chunk" ++ quote ++ ":" ++ quote ++ s ++ quote ++ "}".

(** The test that makes the [for] loop [break]: a line that carries the
    payload [[DONE]]. *)
Definition is_done_line (line : string) : bool :=
  startsWith line "data: " && String.eqb (trim (slice_from 6 line)) "[DONE]".

(** The line feed that ends a line of the body. *)
Definition LF : string := String "010"%char EmptyString.

(** A body line carrying [payload]. *)
Definition data_line (payload : string) : string := "data: " ++ payload.


(** The built-ins used in the examples: [results] is [null]; the parser
    knows the one payload the example body carries; no value is
    converted to a string. *)
Definition null_results : unit -> string := fun _ => "null".

Definition parse_late : string -> option JValue :=
  parse_only (chunk_payload "late") (JObj [("chunk", JStr "late")]).

Definition no_conversion : JValue -> string := fun _ => "".

Section Flight.

Context {Results : Type}.

(** Every call made one request, and a call in flight is the one whose
    controller is in [abortRef]. *)
Definition single_flight (c : @Client Results) : Prop :=
  length (requests c) = length (calls c) /\
  forall i, in_flight c i = true -> abortRef c = Some i.

(** The events that take a call to the [catch] clause with an error that
    is not an abort: a rejected [fetch] or read, an error body, or a
    response that is ok but has no body. *)
Definition fails (e : @Event Results) : bool :=
  match e with
  | FetchRejects _ _ | ErrorBodyArrives _ _ | ReadRejects _ _ => true
  | FetchResponds _ status has_body => ok status && negb has_body
  | _ => false
  end.

(** The state that [generate] sets before it calls [fetch]. *)
Definition loading : InsightState :=
  {| text := ""; isLoading := true; error := None |}.


End Flight.

End Insight.

(** ** useWhatIf: the scenario request *)

Module WhatIf.

Section Hook.

(** [WhatIfPreset] and [WhatIfResponse] as the server sends them; the
    fields of a preset that [executePreset] reads are the parameters
    [scenario_type], [target_entity] and [delay_months]. *)
Context {Preset Response : Type}.
Variable scenario_type : Preset -> string.
Variable target_entity : Preset -> string.
Variable delay_months : Preset -> Z.

(** The arguments given to [executeWhatIf]. *)
Record Request : Type := {
  scenarioType : string;
  targetEntity : string;
  delayMonths : Z;
  includeNarrative : bool
}.

(** The four [useState] slots, the requests made and the number of them
    that have not settled. *)
Record Hook : Type := {
  presets : list Preset;
  result : option Response;
  isLoading : bool;
  error : option string;
  posted : list Request;
  pending : nat
}.

Definition mount : Hook := {|
  presets := []; result := None; isLoading := false; error := None;
  posted := []; pending := 0
|}.

(** [execute], up to its [await]. *)
Definition execute (r : Request) (h : Hook) : Hook :=
  {| presets := presets h; result := None; isLoading := true; error := None;
     posted := posted h ++ [r]; pending := S (pending h) |}.

(** [executePreset]; [includeNarrative] defaults to [false]. *)
Definition executePreset (p : Preset) (narrative : option bool) (h : Hook) : Hook :=
  execute {| scenarioType := scenario_type p; targetEntity := target_entity p;
             delayMonths := delay_months p;
             includeNarrative := default false narrative |} h.

(** The request resolves: [setResult(data)], then the [finally]. *)
Definition resolved (data : Response) (h : Hook) : Hook :=
  {| presets := presets h; result := Some data; isLoading := false;
     error := error h; posted := posted h; pending := Nat.pred (pending h) |}.

Definition default_message : string := "시나리오 실행 실패".

(** The request rejects, with an [Error] of that message or with
    something else ([None]): the [catch], then the [finally]. *)
Definition rejected (reason : option string) (h : Hook) : Hook :=
  {| presets := presets h; result := result h; isLoading := false;
     error := Some (default default_message reason); posted := posted h;
     pending := Nat.pred (pending h) |}.

(** [clear] *)
Definition clear (h : Hook) : Hook :=
  {| presets := presets h; result := None; isLoading := isLoading h;
     error := None; posted := posted h; pending := pending h |}.

(** The presets arrive ([d.presets]); a failure to load them is ignored. *)
Definition presets_loaded (ps : list Preset) (h : Hook) : Hook :=
  {| presets := ps; result := result h; isLoading := isLoading h;
     error := error h; posted := posted h; pending := pending h |}.

Inductive Event : Type :=
  | CallExecute (r : Request)
  | CallExecutePreset (p : Preset) (narrative : option bool)
  | CallClear
  | Resolves (data : Response)
  | Rejects (reason : option string)
  | PresetsLoaded (ps : list Preset)
  | PresetsFail.

(** One event; a request can settle only if one is pending. *)
Definition step (e : Event) (h : Hook) : option Hook :=
  match e with
  | CallExecute r => Some (execute r h)
  | CallExecutePreset p narrative => Some (executePreset p narrative h)
  | CallClear => Some (clear h)
  | Resolves data => if (0 <? pending h)%nat then Some (resolved data h) else None
  | Rejects reason => if (0 <? pending h)%nat then Some (rejected reason h) else None
  | PresetsLoaded ps => Some (presets_loaded ps h)
  | PresetsFail => Some h
  end.

(** The events follow one another as the panel lets them: its buttons
    are disabled while [isLoading], so no request is started then. *)
Fixpoint run_disabled_while_loading (es : list Event) (h : Hook) : option Hook :=
  match es with
  | [] => Some h
  | e :: es' =>
      let starts := match e with
                    | CallExecute _ | CallExecutePreset _ _ => true
                    | _ => false
                    end in
      if starts && isLoading h then None
      else match step e h with
           | Some h' => run_disabled_while_loading es' h'
           | None => None
           end
  end.

End Hook.

End WhatIf.

(** ** InsightPanel: bold spans of a line *)

Module Markdown.

(** What [renderInline] returns: strings and [<strong>] elements. *)
Inductive Part : Type :=
  | Plain (s : string)
  | Bold (s : string).

(** The characters that [.] does not match, among the code units below
    256: LF and CR. *)
Definition is_line_terminator (a : ascii) : bool :=
  Ascii.eqb a "010"%char || Ascii.eqb a "013"%char.

(** [(.*?)\*\*] at the start of [s]: the shortest run of characters
    that [.] matches and that two stars follow; the run and the rest
    after the stars. *)
Fixpoint lazy_close (s : string) : option (string * string) :=
  if startsWith s "**" then Some (EmptyString, slice_from 2 s)
  else match s with
       | EmptyString => None
       | String a s' =>
           if is_line_terminator a then None
           else match lazy_close s' with
                | Some (content, rest) => Some (String a content, rest)
                | None => None
                end
       end.

(** [regex.exec] on what is left of the text: the leftmost match of
    [\*\*(.*?)\*\*]; the text before it, its group and the text
    after it. *)
Fixpoint exec (s : string) : option (string * string * string) :=
  match s with
  | EmptyString => None
  | String a s' =>
      match (if startsWith s "**" then lazy_close (slice_from 2 s) else None) with
      | Some (content, rest) => Some (EmptyString, content, rest)
      | None => match exec s' with
                | Some (before, content, rest) => Some (String a before, content, rest)
                | None => None
                end
      end
  end.

(** [text.slice(...)] is pushed only when it is not empty. *)
Definition plain (s : string) : list Part :=
  match s with
  | EmptyString => []
  | _ => [Plain s]
  end.

(** The [while] loop and the push after it, on what is left of the text.
    Every match takes at least four characters, so [fuel] at least the
    length of [s] is never used up. *)
Fixpoint parts_from (fuel : nat) (s : string) : list Part :=
  match fuel with
  | O => plain s
  | S fuel' =>
      match exec s with
      | Some (before, content, rest) =>
          plain before ++ Bold content :: parts_from fuel' rest
      | None => plain s
      end
  end.

(** [renderInline] *)
Definition renderInline (text : string) : list Part :=
  match parts_from (String.length text) text with
  | [] => [Plain text]
  | parts => parts
  end.

(** The source text of a part. *)
Definition source (p : Part) : string :=
  match p with
  | Plain s => s
  | Bold s => "**" ++ s ++ "**"
  end.

Definition sources (parts : list Part) : string :=
  foldr (fun p acc => source p ++ acc) EmptyString parts.

(** Every character of [s] is one that [.] matches. *)
Fixpoint dot_matches (s : string) : bool :=
  match s with
  | EmptyString => true
  | String a s' => negb (is_line_terminator a) && dot_matches s'
  end.

(** [t] occurs in [s]. *)
Fixpoint occurs (t s : string) : bool :=
  startsWith s t ||
  match s with
  | EmptyString => false
  | String _ s' => occurs t s'
  end.

End Markdown.

(** * Properties of useRealtime *)

Module RealtimeProps.
Import Realtime.

(** ** The map of equipment *)

Lemma SameValueZero_eq (x y : JSVal) : SameValueZero x y = true -> x = y.
Proof.
  destruct x as [[]|], y as [[]|]; simpl; try discriminate; try reflexivity.
  - intros H. apply Bool.eqb_prop in H. by subst.
  - intros H. apply Z.eqb_eq in H. by subst.
  - intros H. apply String.eqb_eq in H. by subst.
Qed.

Lemma SameValueZero_sym (x y : JSVal) : SameValueZero x y = SameValueZero y x.
Proof.
  destruct x as [[]|], y as [[]|]; simpl; try reflexivity.
  - by destruct b, b0.
  - apply Z.eqb_sym.
  - apply String.eqb_sym.
Qed.

Lemma Map_get_set {V} (k : JSVal) (v : V) (m : Map V) :
  SameValueZero k k = true -> Map_get k (Map_set k v m) = Some v.
Proof.
  intros Hk. induction m as [|[k' v'] rest IH]; simpl.
  - by rewrite Hk.
  - destruct (SameValueZero k' k) eqn:E; simpl; rewrite E; [done | exact IH].
Qed.

Lemma Map_entries_of_set {V} (k : JSVal) (v : V) (m : Map V) :
  SameValueZero k k = true -> Map_ok m ->
  Map_entries_of k (Map_set k v m) = [(k, v)].
Proof.
  intros Hk. unfold Map_entries_of.
  induction m as [|[k' v'] rest IH]; simpl; intros Hok.
  - by rewrite Hk.
  - destruct Hok as [Hnone Hok].
    destruct (SameValueZero k' k) eqn:E; simpl; rewrite E.
    + apply SameValueZero_eq in E. subst k'.
      unfold Map_entries_of in Hnone. by rewrite Hnone.
    + by apply IH.
Qed.

Lemma Map_entries_of_set_other {V} (j k : JSVal) (v : V) (m : Map V) :
  SameValueZero k j = false ->
  Map_entries_of j (Map_set k v m) = Map_entries_of j m.
Proof.
  intros Hkj. unfold Map_entries_of.
  induction m as [|[k' v'] rest IH]; simpl.
  - by rewrite Hkj.
  - destruct (SameValueZero k' k) eqn:E; simpl.
    + apply SameValueZero_eq in E. subst k'. by rewrite Hkj.
    + by rewrite IH.
Qed.

Lemma Map_ok_set {V} (k : JSVal) (v : V) (m : Map V) :
  Map_ok m -> Map_ok (Map_set k v m).
Proof.
  induction m as [|[k' v'] rest IH]; simpl.
  - intros _. done.
  - intros [Hnone Hok].
    destruct (SameValueZero k' k) eqn:E; simpl.
    + done.
    + split; [|by apply IH].
      rewrite Map_entries_of_set_other; [done|].
      by rewrite SameValueZero_sym.
Qed.

(** ** The reducer *)

Lemma handleMessage_counts now message prev :
  messageCount (fst (handleMessage now message prev)) = messageCount prev + 1 /\
  lastMessageAt (fst (handleMessage now message prev)) = Some now.
Proof.
  unfold handleMessage.
  repeat (case_match; simpl; try done).
Qed.

Lemma handleMessage_unknown now message prev :
  stream_type message ∉ StreamTypes ->
  handleMessage now message prev = (counted now prev, []).
Proof.
  intros Hty. unfold handleMessage.
  assert (forall t, t ∈ StreamTypes -> String.eqb (stream_type message) t = false) as Hne.
  { intros t Ht. apply String.eqb_neq. intros Heq. apply Hty. by rewrite Heq. }
  rewrite !Hne; [done | unfold StreamTypes; set_solver ..].
Qed.

Lemma handleMessages_snoc frames f s :
  handleMessages (frames ++ [f]) s
  = fst (handleMessage (fst f) (snd f) (handleMessages frames s)).
Proof. unfold handleMessages. by rewrite foldl_app. Qed.

Lemma handleMessage_wip now message prev :
  stream_type message = "wip_movement" ->
  recentWIPMovements (fst (handleMessage now message prev))
  = take 50 (data message :: recentWIPMovements prev).
Proof. intros Hty. unfold handleMessage. by rewrite Hty. Qed.

Lemma handleMessage_equipment now message prev :
  stream_type message = "equipment_status" ->
  equipmentStatuses (fst (handleMessage now message prev))
  = Map_set (get (data message) "equipment_id") (data message)
      (equipmentStatuses prev).
Proof. intros Hty. unfold handleMessage. by rewrite Hty. Qed.

Lemma handleMessage_Map_ok now message prev :
  Map_ok (equipmentStatuses prev) ->
  Map_ok (equipmentStatuses (fst (handleMessage now message prev))).
Proof.
  intros Hok. unfold handleMessage.
  repeat (case_match; simpl; try done).
  by apply Map_ok_set.
Qed.

Lemma take_cons_take {A} (n : nat) (x : A) (l : list A) :
  take n (x :: take n l) = take n (x :: l).
Proof.
  destruct n as [|n]; [done|]. simpl. f_equal.
  rewrite take_take. f_equal. lia.
Qed.

Lemma handleMessages_wip frames :
  Forall (fun f => stream_type (snd f) = "wip_movement") frames ->
  recentWIPMovements (handleMessages frames initialState)
  = take 50 (reverse ((fun f => data (snd f)) <$> frames)).
Proof.
  induction frames as [|f frames IH] using rev_ind; [done|].
  intros Hall. apply Forall_app in Hall as [Hall Hf].
  rewrite Forall_singleton in Hf.
  rewrite handleMessages_snoc, handleMessage_wip by done.
  rewrite IH by done.
  rewrite fmap_app, reverse_app.
  apply (take_cons_take 50).
Qed.

(** C3.  From the initial state, N frames of type [wip_movement] leave a
    list of min(N, 50) movements, the newest first: the 50 first elements
    of the payloads in reverse order of arrival.  When the list is full,
    the next movement goes to the front and the last (oldest) element is
    dropped. *)
Theorem wip_movements_newest_first_bounded
    (frames : list (Date * StreamMessage)) :
  Forall (fun f => stream_type (snd f) = "wip_movement") frames ->
  let s := handleMessages frames initialState in
  recentWIPMovements s = take 50 (reverse ((fun f => data (snd f)) <$> frames)) /\
  length (recentWIPMovements s) = Nat.min (length frames) 50 /\
  (forall now message,
      stream_type message = "wip_movement" ->
      length (recentWIPMovements s) = 50 ->
      recentWIPMovements (fst (handleMessage now message s))
      = data message :: removelast (recentWIPMovements s)).
Proof.
  intros Hall s.
  assert (recentWIPMovements s
          = take 50 (reverse ((fun f => data (snd f)) <$> frames))) as Hs
    by (by apply handleMessages_wip).
  split; [exact Hs|]. split.
  - rewrite Hs, length_take, length_reverse, length_fmap. lia.
  - intros now message Hty Hfull.
    rewrite handleMessage_wip by done.
    change (take 50 (data message :: recentWIPMovements s))
      with (data message :: take 49 (recentWIPMovements s)).
    f_equal.
    destruct (recentWIPMovements s) as [|x l] using rev_ind; [done|].
    rewrite length_app in Hfull. simpl in Hfull.
    rewrite removelast_last, take_app_length'; [done | lia].
Qed.

Lemma wip_movements_example :
  let frames := [(1%Z, frame "wip_movement" [("lot_id", JStr "L1")]);
                 (2%Z, frame "wip_movement" [("lot_id", JStr "L2")])] in
  recentWIPMovements (handleMessages frames initialState)
  = [[("lot_id", JStr "L2")]; [("lot_id", JStr "L1")]].
Proof.
  intros frames.
  assert (Forall (fun f => stream_type (snd f) = "wip_movement") frames) as Hall
    by (repeat constructor).
  exact (proj1 (wip_movements_newest_first_bounded frames Hall)).
Defined.

(** C5.  A frame that parsed, whatever its [stream_type], adds one to
    [messageCount] and sets [lastMessageAt] to the time of handling.  If
    the type is none of the six of [StreamType], nothing else changes:
    the rest of the state, the refs, the sockets and the timers are the
    same, and the only callback is [onMessage]. *)
Theorem every_frame_is_counted (now : Date) (message : StreamMessage) (h : Hook) :
  let h' := onmessage now (Some message) h in
  messageCount (state h') = messageCount (state h) + 1 /\
  lastMessageAt (state h') = Some now /\
  (stream_type message ∉ StreamTypes ->
   connectionStatus (state h') = connectionStatus (state h) /\
   connectionId (state h') = connectionId (state h) /\
   lastYieldUpdate (state h') = lastYieldUpdate (state h) /\
   equipmentStatuses (state h') = equipmentStatuses (state h) /\
   recentWIPMovements (state h') = recentWIPMovements (state h) /\
   activeAlerts (state h') = activeAlerts (state h) /\
   metrics (state h') = metrics (state h) /\
   wsRef h' = wsRef h /\
   reconnectAttemptsRef h' = reconnectAttemptsRef h /\
   reconnectTimeoutRef h' = reconnectTimeoutRef h /\
   sockets h' = sockets h /\
   timers h' = timers h /\
   effects h' = (effects h ++ [OnMessage message])%list).
Proof.
  intros h'. subst h'. simpl.
  destruct (handleMessage_counts now message (state h)) as [Hc Ht].
  split; [exact Hc|]. split; [exact Ht|].
  intros Hty. rewrite handleMessage_unknown by done. simpl.
  repeat split; done.
Qed.

Lemma unknown_frame_example :
  let message := frame "maintenance_window" [("equipment_id", JStr "EQ-1")] in
  let h := default mount (run defaultOptions [CallConnect; WsOpen 0] mount) in
  let h' := onmessage 7%Z (Some message) h in
  messageCount (state h') = 1 /\
  lastMessageAt (state h') = Some 7%Z /\
  equipmentStatuses (state h') = [] /\
  effects h' = [OnConnect; OnMessage message].
Proof.
  intros message h h'.
  destruct (every_frame_is_counted 7%Z message h) as (Hc & Ht & Hrest).
  assert (stream_type message ∉ StreamTypes) as Hty.
  { unfold StreamTypes. intros Hin.
    repeat (apply elem_of_cons in Hin as [Heq|Hin]; [discriminate|]).
    by apply elem_of_nil in Hin. }
  destruct (Hrest Hty) as (_ & _ & _ & He & _ & _ & _ & _ & _ & _ & _ & _ & Heff).
  split; [exact Hc|]. split; [exact Ht|]. split; [exact He|exact Heff].
Defined.

(** C4, as the hook does it.  After two [equipment_status] frames with
    the same string [equipment_id], the map holds exactly one entry for
    that id, and its record is the payload of the later frame, unchanged:
    [previous_status] is what the later frame carries. *)
Theorem equipment_upsert_keeps_later_payload
    (now1 now2 : Date) (m1 m2 : StreamMessage) (id : string) (prev : RealtimeState) :
  stream_type m1 = "equipment_status" ->
  stream_type m2 = "equipment_status" ->
  get (data m1) "equipment_id" = Some (JStr id) ->
  get (data m2) "equipment_id" = Some (JStr id) ->
  Map_ok (equipmentStatuses prev) ->
  let s := fst (handleMessage now2 m2 (fst (handleMessage now1 m1 prev))) in
  Map_get (Some (JStr id)) (equipmentStatuses s) = Some (data m2) /\
  Map_entries_of (Some (JStr id)) (equipmentStatuses s)
  = [(Some (JStr id), data m2)] /\
  (forall stored,
      Map_get (Some (JStr id)) (equipmentStatuses s) = Some stored ->
      get stored "previous_status" = get (data m2) "previous_status").
Proof.
  intros Hty1 Hty2 Hid1 Hid2 Hok s. subst s.
  rewrite !handleMessage_equipment by done.
  rewrite Hid1, Hid2.
  assert (SameValueZero (Some (JStr id)) (Some (JStr id)) = true) as Hrefl
    by apply String.eqb_refl.
  rewrite Map_get_set by done.
  split; [done|]. split.
  - apply Map_entries_of_set; [done|]. by apply Map_ok_set.
  - intros stored [= <-]. done.
Qed.

Lemma equipment_upsert_example :
  let m1 := frame "equipment_status" (equipment "EQ-1" "RUNNING" "IDLE") in
  let m2 := frame "equipment_status" (equipment "EQ-1" "DOWN" "RUNNING") in
  let s := fst (handleMessage 2%Z m2 (fst (handleMessage 1%Z m1 initialState))) in
  Map_get (Some (JStr "EQ-1")) (equipmentStatuses s)
  = Some (equipment "EQ-1" "DOWN" "RUNNING").
Proof.
  intros m1 m2 s.
  exact (proj1 (equipment_upsert_keeps_later_payload 1%Z 2%Z m1 m2 "EQ-1"
                  initialState eq_refl eq_refl eq_refl eq_refl I)).
Defined.

(** C4, as stated, fails.  A frame for EQ-1 with status RUNNING is
    followed by one with status DOWN whose [previous_status] is
    MAINTENANCE (a change in between was not received).  The record kept
    for EQ-1 says MAINTENANCE, not the status RUNNING of the record it
    replaced. *)
Lemma previous_status_not_taken_from_superseded :
  let first := equipment "EQ-1" "RUNNING" "IDLE" in
  let later := equipment "EQ-1" "DOWN" "MAINTENANCE" in
  let s1 := fst (handleMessage 1%Z (frame "equipment_status" first) initialState) in
  let s2 := fst (handleMessage 2%Z (frame "equipment_status" later) s1) in
  Map_get (Some (JStr "EQ-1")) (equipmentStatuses s1) = Some first /\
  get first "status" = Some (JStr "RUNNING") /\
  exists stored,
    Map_get (Some (JStr "EQ-1")) (equipmentStatuses s2) = Some stored /\
    get stored "previous_status" = Some (JStr "MAINTENANCE") /\
    get stored "previous_status" <> get first "status".
Proof.
  simpl. split; [done|]. split; [done|].
  eexists. split; [reflexivity|]. split; [done|]. discriminate.
Qed.

(** ** The connection life cycle and the stored data *)

Ltac unfold_handlers :=
  unfold reconnect_callback, connect, onopen, onclose, disconnect, close_socket,
    clearAlerts, dismissAlert, onmessage, new_WebSocket, setTimeout_reconnect,
    remove_timer, clear_wsRef, set_readyState, set_reconnectAttempts, call,
    setState in *.

(** C9, as the hook does it.  No event of the connection life cycle
    (connect, open, close, retry timer, disconnect) changes the yield
    snapshot, the equipment map, the WIP list, the alert list, the metrics
    snapshot, the message counter or the time of the last message.  The
    close handler sets [connectionId] to null; the other life-cycle
    events leave it as it is. *)
Theorem lifecycle_keeps_stream_data (o : Options) (e : Event) (h h' : Hook) :
  lifecycle e = true ->
  step o e h = Some h' ->
  same_stream_data (state h) (state h') /\
  ((exists ws, e = WsClose ws) -> connectionId (state h') = None) /\
  ((forall ws, e <> WsClose ws) -> connectionId (state h') = connectionId (state h)).
Proof.
  intros He Hstep. unfold same_stream_data.
  destruct e; simpl in He, Hstep; try discriminate;
    repeat (case_match; try discriminate);
    injection Hstep as <-; unfold_handlers; simpl;
    repeat (case_match; simpl);
    repeat split; try done;
    try (intros [ws' Hws']; discriminate);
    intros Hne; by destruct (Hne ws).
Qed.

Lemma close_keeps_stream_data_example :
  let h := default mount
             (run defaultOptions
                [CallConnect; WsOpen 0;
                 WsMessage 0 7%Z (Some (frame "alert" [("alert_id", JStr "A1")]))]
                mount) in
  let h' := default mount (step defaultOptions (WsClose 0) h) in
  activeAlerts (state h') = [[("alert_id", JStr "A1")]] /\
  messageCount (state h') = 1 /\
  connectionId (state h') = None.
Proof.
  intros h h'.
  destruct (lifecycle_keeps_stream_data defaultOptions (WsClose 0) h h' eq_refl eq_refl)
    as [(_ & _ & _ & Ha & _ & Hc & _) [Hid _]].
  split; [exact Ha|]. split; [exact Hc|].
  apply Hid. by exists 0.
Defined.

(** C9, as stated, fails.  A socket opens, a heartbeat stores the
    connection id c-1, and the socket closes: the close handler has set
    [connectionId] to null. *)
Lemma close_resets_connection_id :
  let heartbeat := frame "heartbeat" [("connection_id", JStr "c-1")] in
  exists h h',
    run defaultOptions [CallConnect; WsOpen 0; WsMessage 0 7%Z (Some heartbeat)] mount
    = Some h /\
    step defaultOptions (WsClose 0) h = Some h' /\
    connectionId (state h) = Some (JStr "c-1") /\
    connectionId (state h') = None.
Proof.
  simpl. eexists. eexists.
  split; [reflexivity|]. split; [reflexivity|]. split; reflexivity.
Qed.

(** ** Bounded reconnection *)

Lemma chain_inv_init (o : Options) : chain_inv o (connect mount).
Proof.
  unfold chain_inv. simpl. split; [lia|]. split; [by exists 0|].
  split; [|by left].
  intros i r _ Hi. lia.
Qed.

(** Under [chain_inv], a socket that is not closed is the newest one,
    and no retry is pending. *)
Lemma chain_inv_live_socket (o : Options) (h : Hook) (ws : nat) (r : ReadyState) :
  chain_inv o h -> sockets h !! ws = Some r -> r <> CLOSED ->
  S ws = length (sockets h) /\ timers h = [].
Proof.
  intros (_ & _ & Hold & Htim) Hws Hr. split.
  - apply lookup_lt_Some in Hws as Hlt.
    destruct (decide (S ws < length (sockets h))) as [Hlt'|]; [|lia].
    by destruct Hr; apply (Hold ws).
  - destruct Htim as [|(_ & _ & Hall)]; [done|].
    by destruct Hr; apply (Hall ws).
Qed.

Lemma chain_inv_open (o : Options) (h : Hook) (ws : nat) :
  chain_inv o h -> sockets h !! ws = Some CONNECTING ->
  chain_inv o (onopen (set_readyState ws OPEN h)).
Proof.
  intros Hinv Hws.
  destruct (chain_inv_live_socket o h ws CONNECTING Hinv Hws) as [Hlast Hno];
    [done|].
  destruct Hinv as (_ & Href & Hold & _).
  unfold chain_inv. simpl. rewrite length_insert.
  split; [lia|]. split; [done|]. split; [|by left].
  intros i r Hi Hlt.
  rewrite list_lookup_insert_ne in Hi by lia. by apply (Hold i).
Qed.

Lemma chain_inv_message (o : Options) (h : Hook) now parsed :
  chain_inv o h -> chain_inv o (onmessage now parsed h).
Proof. intros Hinv. by destruct parsed. Qed.

Lemma chain_inv_close (o : Options) (h : Hook) (ws : nat) (r : ReadyState) :
  chain_inv o h -> sockets h !! ws = Some r -> r <> CLOSED ->
  chain_inv o (onclose o (set_readyState ws CLOSED h)).
Proof.
  intros Hinv Hws Hr.
  destruct (chain_inv_live_socket o h ws r Hinv Hws Hr) as [Hlast Hno].
  destruct Hinv as (Hatt & Href & Hold & _).
  assert (forall i r', <[ws:=CLOSED]> (sockets h) !! i = Some r' -> r' = CLOSED)
    as Hall.
  { intros i r' Hi. destruct (decide (i = ws)) as [->|Hne].
    - rewrite list_lookup_insert_eq in Hi by lia. congruence.
    - rewrite list_lookup_insert_ne in Hi by done.
      apply lookup_lt_Some in Hi as Hlt. apply (Hold i); [done | lia]. }
  unfold onclose. simpl.
  destruct (reconnectAttemptsRef h <? maxReconnectAttempts o)%nat eqn:Hlt;
    unfold chain_inv; simpl; rewrite length_insert.
  - apply Nat.ltb_lt in Hlt.
    split; [done|]. split; [done|]. split; [by intros i r' Hi _; apply (Hall i)|].
    right. rewrite Hno. split; [by eexists|]. split; [done|exact Hall].
  - split; [done|]. split; [done|]. split; [by intros i r' Hi _; apply (Hall i)|].
    by left.
Qed.

Lemma chain_inv_timer (o : Options) (h : Hook) (t : nat) :
  chain_inv o h -> existsb (Nat.eqb t) (timers h) = true ->
  chain_inv o (reconnect_callback (remove_timer t h)).
Proof.
  intros (Hatt & (ws & Href & Hlen) & Hold & Htim) Ht.
  destruct Htim as [Hno|([t0 Hone] & Hlt & Hall)];
    [by rewrite Hno in Ht|].
  rewrite Hone in Ht. simpl in Ht. rewrite orb_false_r in Ht.
  apply Nat.eqb_eq in Ht. subst t0.
  assert (sockets h !! ws = Some CLOSED) as Hws.
  { destruct (lookup_lt_is_Some_2 (sockets h) ws) as [r Hr]; [lia|].
    by rewrite Hr, (Hall ws r Hr). }
  unfold reconnect_callback, connect, current_is_open. simpl.
  rewrite Href, Hws.
  unfold chain_inv. simpl. rewrite Hone. simpl. rewrite Nat.eqb_refl. simpl.
  rewrite length_app. simpl.
  split; [lia|]. split; [exists (length (sockets h)); split; [done|lia]|].
  split; [|by left].
  intros i r Hi Hi'. rewrite lookup_app_l in Hi by lia. by apply (Hall i).
Qed.

Lemma chain_inv_step (o : Options) (e : Event) (h h' : Hook) :
  automatic e = true -> chain_inv o h -> step o e h = Some h' -> chain_inv o h'.
Proof.
  intros He Hinv Hstep. destruct e; simpl in He, Hstep; try discriminate.
  - destruct (sockets h !! ws) as [[]|] eqn:Hws; try discriminate.
    injection Hstep as <-. by apply chain_inv_open.
  - destruct (sockets h !! ws) as [[]|] eqn:Hws; try discriminate.
    injection Hstep as <-. by apply chain_inv_message.
  - destruct (sockets h !! ws) as [[]|] eqn:Hws; try discriminate;
      injection Hstep as <-; by eapply chain_inv_close.
  - destruct (existsb (Nat.eqb t) (timers h)) eqn:Ht; try discriminate.
    injection Hstep as <-. by apply chain_inv_timer.
Qed.

Lemma chain_inv_run (o : Options) (es : list Event) (h h' : Hook) :
  forallb automatic es = true -> chain_inv o h -> run o es h = Some h' ->
  chain_inv o h'.
Proof.
  revert h. induction es as [|e es IH]; simpl; intros h Hes Hinv Hrun.
  - by injection Hrun as <-.
  - apply andb_true_iff in Hes as [He Hes].
    destruct (step o e h) as [h1|] eqn:Hstep; [|discriminate].
    apply (IH h1); [done | by eapply chain_inv_step | done].
Qed.

(** When every socket is closed and no timeout is pending, nothing
    happens until the component calls the hook. *)
Lemma quiescent_no_step (o : Options) (h : Hook) (e : Event) :
  (forall i r, sockets h !! i = Some r -> r = CLOSED) -> timers h = [] ->
  automatic e = true -> step o e h = None.
Proof.
  intros Hall Hno He. destruct e; simpl in *; try discriminate.
  - destruct (sockets h !! ws) as [r|] eqn:Hws; [|done].
    by rewrite (Hall ws r Hws).
  - destruct (sockets h !! ws) as [r|] eqn:Hws; [|done].
    by rewrite (Hall ws r Hws).
  - destruct (sockets h !! ws) as [r|] eqn:Hws; [|done].
    by rewrite (Hall ws r Hws).
  - by rewrite Hno.
Qed.

(** C2.  The hook is mounted and [connect] is called once; then sockets
    open, deliver frames and close, and retry timers fire, in any order
    the browser allows.  In every state reached, the attempt counter is
    at most [maxReconnectAttempts]; a socket that opens sets it to 0; and
    when a socket closes with the counter at the maximum, the status is
    [disconnected], no retry is pending and no further transport or timer
    event can occur, so the state stays as it is until the component
    calls [connect], which then opens a new socket. *)
Theorem reconnect_attempts_bounded (o : Options) (es : list Event) (h : Hook) :
  forallb automatic es = true ->
  run o es (connect mount) = Some h ->
  reconnectAttemptsRef h <= maxReconnectAttempts o /\
  (forall ws h', step o (WsOpen ws) h = Some h' -> reconnectAttemptsRef h' = 0) /\
  (forall ws h',
      step o (WsClose ws) h = Some h' ->
      maxReconnectAttempts o <= reconnectAttemptsRef h ->
      connectionStatus (state h') = disconnected /\
      timers h' = [] /\
      connections h' = connections h /\
      (forall es' h'', forallb automatic es' = true ->
                       run o es' h' = Some h'' -> h'' = h') /\
      connectionStatus (state (connect h')) = connecting /\
      connections (connect h') = S (connections h')).
Proof.
  intros Hes Hrun.
  assert (chain_inv o h) as Hinv
    by (eapply chain_inv_run; [done | apply chain_inv_init | done]).
  split; [by destruct Hinv|]. split.
  - intros ws h' Hstep. simpl in Hstep.
    destruct (sockets h !! ws) as [[]|]; try discriminate.
    by injection Hstep as <-.
  - intros ws h' Hstep Hmax.
    assert (chain_inv o h') as Hinv' by (by eapply (chain_inv_step o (WsClose ws))).
    simpl in Hstep.
    assert (exists r, sockets h !! ws = Some r /\ r <> CLOSED
                      /\ h' = onclose o (set_readyState ws CLOSED h))
      as (r & Hws & Hr & ->).
    { destruct (sockets h !! ws) as [[]|]; try discriminate;
        injection Hstep as <-; by eexists. }
    destruct (chain_inv_live_socket o h ws r Hinv Hws Hr) as [Hlast Hno].
    destruct Hinv as (_ & _ & Hold & _).
    assert (forall i r', <[ws:=CLOSED]> (sockets h) !! i = Some r' -> r' = CLOSED)
      as Hall.
    { intros i r' Hi. destruct (decide (i = ws)) as [->|Hne].
      - rewrite list_lookup_insert_eq in Hi by lia. congruence.
      - rewrite list_lookup_insert_ne in Hi by done.
        apply lookup_lt_Some in Hi as Hlt. apply (Hold i); [done | lia]. }
    assert ((reconnectAttemptsRef h <? maxReconnectAttempts o)%nat = false) as Hge
      by (apply Nat.ltb_ge; lia).
    unfold onclose in *. simpl in *. rewrite Hge in *. simpl.
    split; [done|]. split; [done|].
    split; [unfold connections; simpl; by rewrite length_insert|].
    split.
    + intros es' h'' Hes' Hrun'. destruct es' as [|e es']; simpl in Hrun'.
      * by injection Hrun' as <-.
      * simpl in Hes'. apply andb_true_iff in Hes' as [He _].
        rewrite quiescent_no_step in Hrun'; done.
    + unfold connect, current_is_open. simpl.
      destruct (wsRef h) as [w|]; simpl.
      * destruct (<[ws:=CLOSED]> (sockets h) !! w) as [r'|] eqn:Hw.
        -- rewrite (Hall w r' Hw). simpl. unfold connections. simpl.
           rewrite length_app. simpl. split; [done|lia].
        -- simpl. unfold connections. simpl.
           rewrite length_app. simpl. split; [done|lia].
      * unfold connections. simpl. rewrite length_app. simpl. split; [done|lia].
Qed.

Lemma reconnect_attempts_example :
  let o := {| subscriptions := ["alert"]; reconnectInterval := 3000;
              maxReconnectAttempts := 2 |} in
  let es := [WsOpen 0; WsClose 0; TimerFires 1; WsClose 1; TimerFires 2] in
  let h := default mount (run o es (connect mount)) in
  let h' := default mount (step o (WsClose 2) h) in
  reconnectAttemptsRef h = 2 /\
  reconnectAttemptsRef h <= maxReconnectAttempts o /\
  connectionStatus (state h') = disconnected /\
  timers h' = [].
Proof.
  intros o es h h'.
  assert (run o es (connect mount) = Some h) as Hrun by (vm_compute; reflexivity).
  assert (step o (WsClose 2) h = Some h') as Hstep by (vm_compute; reflexivity).
  assert (maxReconnectAttempts o <= reconnectAttemptsRef h) as Hmax
    by (vm_compute; constructor).
  destruct (reconnect_attempts_bounded o es h eq_refl Hrun) as (Hle & _ & Hclose).
  destruct (Hclose 2 h' Hstep Hmax) as (Hstatus & Htimers & _).
  split; [vm_compute; reflexivity|].
  split; [exact Hle|]. split; [exact Hstatus|exact Htimers].
Defined.

(** X3.  With one [connect] and no other call, at most one retry is
    pending in every state reached by transport and timer events. *)
Lemma single_chain_one_timer (o : Options) (es : list Event) (h : Hook) :
  forallb automatic es = true ->
  run o es (connect mount) = Some h ->
  length (timers h) <= 1.
Proof.
  intros Hes Hrun.
  assert (chain_inv o h) as (_ & _ & _ & Htim)
    by (eapply chain_inv_run; [done | apply chain_inv_init | done]).
  destruct Htim as [->|([t ->] & _)]; simpl; lia.
Qed.

Lemma single_chain_one_timer_example :
  length (timers (default mount
                    (run defaultOptions [WsClose 0] (connect mount)))) <= 1.
Proof.
  apply (single_chain_one_timer defaultOptions [WsClose 0]);
    vm_compute; reflexivity.
Defined.

(** C7 on the code.  The first socket closes and a retry (timer 1) is
    scheduled; the component calls [connect] before it fires, and the
    socket so made closes too: [ws.onclose] schedules timer 2 and the ref
    now holds 2, but timer 1 was not cleared and both are pending.
    [disconnect] clears timer 2 only.  Timer 1 then fires: the counter
    goes to 6, above the maximum of 5, and a new socket is connecting
    although the component has disconnected. *)
Theorem second_retry_leaves_first_timer_pending :
  exists h h1 h2,
    run defaultOptions [CallConnect; WsClose 0; CallConnect; WsClose 1] mount
    = Some h /\
    timers h = [1; 2] /\
    reconnectTimeoutRef h = Some 2 /\
    step defaultOptions CallDisconnect h = Some h1 /\
    timers h1 = [1] /\
    step defaultOptions (TimerFires 1) h1 = Some h2 /\
    sockets h2 = [CLOSED; CLOSED; CONNECTING] /\
    reconnectAttemptsRef h2 = 6 /\
    connectionStatus (state h2) = connecting.
Proof.
  do 3 eexists.
  split; [vm_compute; reflexivity|].
  repeat split; vm_compute; reflexivity.
Qed.

(** The equipment map of every state the hook can reach has one entry
    per key. *)
Lemma step_Map_ok (o : Options) (e : Event) (h h' : Hook) :
  Map_ok (equipmentStatuses (state h)) -> step o e h = Some h' ->
  Map_ok (equipmentStatuses (state h')).
Proof.
  intros Hok Hstep.
  destruct e; simpl in Hstep;
    repeat (case_match; try discriminate);
    injection Hstep as <-; unfold_handlers; simpl;
    repeat (case_match; simpl); try done.
  subst. by apply handleMessage_Map_ok.
Qed.

Lemma reachable_Map_ok (o : Options) (es : list Event) (h : Hook) :
  run o es mount = Some h -> Map_ok (equipmentStatuses (state h)).
Proof.
  assert (forall h0, Map_ok (equipmentStatuses (state h0)) ->
                     run o es h0 = Some h -> Map_ok (equipmentStatuses (state h)))
    as Hgen.
  { induction es as [|e es IH]; simpl; intros h0 Hok Hrun.
    - by injection Hrun as <-.
    - destruct (step o e h0) as [h1|] eqn:Hstep; [|discriminate].
      apply (IH h1); [by eapply step_Map_ok | done]. }
  apply Hgen. exact I.
Qed.

End RealtimeProps.

(** * Properties of useAIInsight *)

Module InsightProps.
Import Insight.

Section Client.

Context {Results : Type}.
Variable JSON_stringify : Results -> string.
Variable JSON_parse : string -> option JValue.
Variable ToString : JValue -> string.

Local Abbreviation Client := (@Client Results).
Local Abbreviation hashKey := (hashKey JSON_stringify).
Local Abbreviation generate := (generate JSON_stringify).
Local Abbreviation step := (step JSON_stringify JSON_parse ToString).
Local Abbreviation run := (run JSON_stringify JSON_parse ToString).
Local Abbreviation for_lines := (for_lines JSON_parse ToString).

(** ** The cache check *)

Lemma generate_hit (queryType : string) (results : Results) (c : Client) (t : string) :
  cache c !! hashKey queryType results = Some t -> t <> "" ->
  generate queryType results c
  = setState (fun _ => {| text := t; isLoading := false; error := None |}) c.
Proof.
  intros Hc Ht. unfold generate. rewrite Hc. simpl.
  apply String.eqb_neq in Ht. by rewrite Ht.
Qed.

Lemma generate_miss (queryType : string) (results : Results) (c : Client) :
  truthy (JStr <$> cache c !! hashKey queryType results) = false ->
  generate queryType results c
  = setState (snd (abort_current c))
      (start_call (hashKey queryType results) queryType results
         (setState (fun _ => {| text := ""; isLoading := true; error := None |})
            (fst (abort_current c)))).
Proof.
  intros Hc. unfold generate. rewrite Hc. by destruct (abort_current c).
Qed.

(** X1.  A call whose key has a cached text that is not empty publishes
    that text with the loading flag off and no error, and does nothing
    else: no request is sent, no call is started or aborted, and the
    cache is as before. *)
Theorem cached_text_served_without_request
    (queryType : string) (results : Results) (c : Client) (t : string) :
  cache c !! hashKey queryType results = Some t -> t <> "" ->
  state (generate queryType results c)
  = {| text := t; isLoading := false; error := None |} /\
  requests (generate queryType results c) = requests c /\
  calls (generate queryType results c) = calls c /\
  abortRef (generate queryType results c) = abortRef c /\
  cache (generate queryType results c) = cache c.
Proof. intros Hc Ht. by rewrite (generate_hit _ _ _ t). Qed.

(** ** The sentinel inside one chunk *)

Lemma for_lines_cons (line : string) (rest : list string) (accumulated : string)
    (st : InsightState) :
  for_lines (line :: rest) accumulated st
  = if negb (startsWith line "data: ") then for_lines rest accumulated st
    else
      let payload := trim (slice_from 6 line) in
      if String.eqb payload "[DONE]" then (accumulated, st)
      else
        match JSON_parse payload with
        | None => for_lines rest accumulated st
        | Some parsed =>
            match member parsed "chunk" with
            | Throws => for_lines rest accumulated st
            | Value None => for_lines rest accumulated st
            | Value (Some chunk) =>
                if truthy (Some chunk) then
                  let accumulated' := accumulated ++ to_string ToString chunk in
                  for_lines rest accumulated' (with_text accumulated' st)
                else for_lines rest accumulated st
            end
        end.
Proof. reflexivity. Qed.

(** X2.  Inside one chunk, the lines after the sentinel line contribute
    nothing: the loop over the lines gives what it gives on the lines
    before the sentinel. *)
Lemma for_lines_stops_at_done (before after : list string) (line : string)
    (accumulated : string) (st : InsightState) :
  is_done_line line = true ->
  for_lines (before ++ line :: after) accumulated st
  = for_lines before accumulated st.
Proof.
  intros Hdone. apply andb_true_iff in Hdone as [Hstart Hpayload].
  revert accumulated st.
  induction before as [|l before IH]; intros accumulated st.
  - simpl app. rewrite for_lines_cons, Hstart. cbv zeta. by rewrite Hpayload.
  - rewrite <- app_comm_cons, !for_lines_cons. cbv zeta.
    repeat case_match; try done; apply IH.
Qed.

(** ** The cache and the empty text *)

(** The client after a first call has gone to the network, the response
    has come with status 200 and the body has ended without a chunk. *)
Lemma run_empty_body (queryType : string) (results : Results) :
  run [CallGenerate queryType results; FetchResponds 0 200 true; ReadEnds 0] mount
  = Some {| state := {| text := ""; isLoading := false; error := None |};
            cache := <[hashKey queryType results := ""]> ∅;
            abortRef := Some 0;
            calls := [{| key := hashKey queryType results; at_await := Returned |}];
            requests := [(queryType, results)] |}.
Proof.
  unfold run. cbn [step].
  rewrite generate_miss by (unfold mount; cbn [cache]; by rewrite lookup_empty).
  reflexivity.
Qed.

(** C1 on the code.  A first call goes to the network and its body ends
    without a chunk, so the empty text is stored under the key.  A second
    call with the same arguments finds that entry, but the test
    [if (cached)] is false for the empty string: the call goes to the
    network again. *)
Theorem empty_cached_text_is_fetched_again (queryType : string) (results : Results) :
  exists c1 c2 : Client,
    run [CallGenerate queryType results; FetchResponds 0 200 true; ReadEnds 0] mount
    = Some c1 /\
    cache c1 !! hashKey queryType results = Some "" /\
    length (requests c1) = 1 /\
    step (CallGenerate queryType results) c1 = Some c2 /\
    length (requests c2) = 2 /\
    state c2 = {| text := ""; isLoading := true; error := None |}.
Proof.
  eexists. eexists. split; [apply run_empty_body|].
  cbn [cache requests]. split; [apply lookup_insert_eq|]. split; [done|].
  cbn [step]. split; [reflexivity|].
  rewrite generate_miss by (cbn [cache]; by rewrite lookup_insert_eq).
  done.
Qed.

(** ** The sentinel and the chunks after it *)

(** A line whose payload parses to [{chunk: s}], [s] not empty, appends
    [s] and publishes the text. *)
Lemma for_lines_chunk (line : string) (rest : list string) (payload s : string)
    (accumulated : string) (st : InsightState) :
  startsWith line "data: " = true ->
  trim (slice_from 6 line) = payload ->
  String.eqb payload "[DONE]" = false ->
  JSON_parse payload = Some (JObj [("chunk", JStr s)]) ->
  String.eqb s "" = false ->
  for_lines (line :: rest) accumulated st
  = for_lines rest (accumulated ++ s) (with_text (accumulated ++ s) st).
Proof.
  intros Hstart Hpayload Hnot Hparse Hs.
  rewrite for_lines_cons, Hstart. cbv zeta.
  rewrite Hpayload, Hnot, Hparse. simpl. by rewrite Hs.
Qed.

Lemma on_chunk_done (accumulated : string) (st : InsightState) :
  on_chunk JSON_parse ToString (data_line "[DONE]" ++ LF) accumulated st
  = (accumulated, st).
Proof. reflexivity. Qed.

Lemma on_chunk_late (accumulated : string) (st : InsightState) :
  JSON_parse (chunk_payload "late") = Some (JObj [("chunk", JStr "late")]) ->
  on_chunk JSON_parse ToString (data_line (chunk_payload "late") ++ LF) accumulated st
  = (accumulated ++ "late", with_text (accumulated ++ "late") st).
Proof.
  intros Hparse. unfold on_chunk.
  change (split_lines (data_line (chunk_payload "late") ++ LF))
    with [data_line (chunk_payload "late"); ""].
  by rewrite (for_lines_chunk _ _ (chunk_payload "late") "late").
Qed.

(** C6 on the code.  The body comes in two chunks: the sentinel line,
    then a line that carries the chunk [late].  The sentinel ends the
    [for] loop over the lines of its chunk, not the [while] loop that
    reads: the next chunk is read and its text is appended, published and
    cached. *)
Theorem chunk_after_sentinel_is_appended (queryType : string) (results : Results) :
  JSON_parse (chunk_payload "late") = Some (JObj [("chunk", JStr "late")]) ->
  exists c : Client,
    run [CallGenerate queryType results;
         FetchResponds 0 200 true;
         ReadYields 0 (data_line "[DONE]" ++ LF);
         ReadYields 0 (data_line (chunk_payload "late") ++ LF);
         ReadEnds 0] mount
    = Some c /\
    text (state c) = "late" /\
    cache c !! hashKey queryType results = Some "late".
Proof.
  intros Hparse. unfold run. cbn [step].
  rewrite generate_miss by (unfold mount; cbn [cache]; by rewrite lookup_empty).
  cbn -[on_chunk data_line chunk_payload LF hashKey].
  rewrite on_chunk_done. cbn -[on_chunk data_line chunk_payload LF hashKey].
  rewrite on_chunk_late by done. cbn -[hashKey].
  eexists. split; [reflexivity|]. cbn -[hashKey].
  split; [done|]. apply lookup_insert_eq.
Qed.

(** ** Cancelling *)

(** X4.  A call that awaits [fetch] or [reader.read()] is cancelled without a
    trace: [clear] leaves the empty state with the loading flag off and
    no error, the cache and the requests are as before, and the call has
    returned. *)
Lemma clear_is_benign (c : Client) (i : nat) (k : string) (a : Await) :
  abortRef c = Some i ->
  calls c !! i = Some {| key := k; at_await := a |} ->
  a = AwaitFetch \/ (exists accumulated, a = AwaitRead accumulated) ->
  state (clear c) = {| text := ""; isLoading := false; error := None |} /\
  cache (clear c) = cache c /\
  requests (clear c) = requests c /\
  in_flight (clear c) i = false.
Proof.
  intros Href Hcall Ha. unfold clear, abort_current. rewrite Href, Hcall.
  cbn [at_await setState state cache requests resume_at].
  split; [by destruct Ha as [->|[acc ->]]|]. split; [done|]. split; [done|].
  unfold in_flight. cbn [calls setState resume_at].
  rewrite list_lookup_alter_eq, Hcall. done.
Qed.

(** A call that has returned awaits nothing: no promise of its own can
    resume it, so it writes neither to the state nor to the cache. *)
Lemma returned_call_is_over (c : Client) (i : nat) (e : Event) :
  in_flight c i = false -> promise_of e = Some i -> step e c = None.
Proof.
  unfold in_flight. intros Hi He.
  destruct e; simpl in He; try discriminate; injection He as ->; simpl;
    destruct (calls c !! i) as [[k []]|]; done.
Qed.

(** C8 on the code.  The response to a call has come with status 500 and
    the call awaits the error body.  [clear] aborts it: the state is
    cleared, but [response.json()] rejects into its own [.catch], which
    answers [{}]; the call throws [HTTP 500], which is no [AbortError],
    and the [catch] clause stores it as the error. *)
Theorem cancel_during_error_body_reports_error
    (queryType : string) (results : Results) :
  exists c1 c2 : Client,
    run [CallGenerate queryType results; FetchResponds 0 500 true] mount = Some c1 /\
    in_flight c1 0 = true /\
    abortRef c1 = Some 0 /\
    step CallClear c1 = Some c2 /\
    state c2 = {| text := ""; isLoading := false; error := Some "HTTP 500" |} /\
    in_flight c2 0 = false.
Proof.
  unfold run. cbn [step].
  rewrite generate_miss by (unfold mount; cbn [cache]; by rewrite lookup_empty).
  do 2 eexists. split; [reflexivity|].
  repeat split; vm_compute; reflexivity.
Qed.

(** ** The characters of the key *)





End Client.

Lemma chunk_after_sentinel_example :
  exists c : @Client unit,
    run null_results parse_late no_conversion
        [CallGenerate "impact" tt;
         FetchResponds 0 200 true;
         ReadYields 0 (data_line "[DONE]" ++ LF);
         ReadYields 0 (data_line (chunk_payload "late") ++ LF);
         ReadEnds 0] mount
    = Some c /\
    text (state c) = "late" /\
    cache c !! hashKey null_results "impact" tt = Some "late".
Proof.
  apply (chunk_after_sentinel_is_appended null_results parse_late no_conversion).
  vm_compute. reflexivity.
Defined.

Lemma cached_text_example :
  let c := default mount
             (run null_results parse_late no_conversion
                [CallGenerate "impact" tt; FetchResponds 0 200 true;
                 ReadYields 0 (data_line (chunk_payload "late") ++ LF);
                 ReadEnds 0] mount) in
  state (generate null_results "impact" tt c)
  = {| text := "late"; isLoading := false; error := None |} /\
  requests (generate null_results "impact" tt c) = requests c.
Proof.
  intros c.
  assert (cache c !! hashKey null_results "impact" tt = Some "late") as Hc
    by (vm_compute; reflexivity).
  assert ("late" <> "") as Hlate by discriminate.
  destruct (cached_text_served_without_request null_results "impact" tt c "late"
              Hc Hlate) as (Hstate & Hreq & _).
  split; [exact Hstate | exact Hreq].
Defined.

Lemma sentinel_in_chunk_example :
  for_lines parse_late no_conversion
    [data_line (chunk_payload "late"); data_line "[DONE]";
     data_line (chunk_payload "late")] ""
    {| text := ""; isLoading := true; error := None |}
  = for_lines parse_late no_conversion [data_line (chunk_payload "late")] ""
      {| text := ""; isLoading := true; error := None |}.
Proof.
  apply (for_lines_stops_at_done parse_late no_conversion
           [data_line (chunk_payload "late")]).
  vm_compute. reflexivity.
Defined.

Lemma clear_is_benign_example :
  let c := default mount
             (run null_results parse_late no_conversion
                [CallGenerate "impact" tt; FetchResponds 0 200 true;
                 ReadYields 0 (data_line (chunk_payload "late") ++ LF)] mount) in
  state (clear c) = {| text := ""; isLoading := false; error := None |} /\
  cache (clear c) = cache c.
Proof.
  intros c.
  assert (abortRef c = Some 0) as Href by (vm_compute; reflexivity).
  assert (calls c !! 0
          = Some {| key := hashKey null_results "impact" tt;
                    at_await := AwaitRead "late" |}) as Hcall
    by (vm_compute; reflexivity).
  destruct (clear_is_benign c 0 _ _ Href Hcall (or_intror (ex_intro _ "late" eq_refl)))
    as (Hstate & Hcache & _).
  split; [exact Hstate | exact Hcache].
Defined.

End InsightProps.

(** * More properties of useRealtime *)

Module RealtimeViews.
Import Realtime RealtimeProps.

(** ** Runs, event by event *)

Lemma run_snoc (o : Options) (es : list Event) (e : Event) (h h' : Hook) :
  run o (es ++ [e]) h = Some h' <->
  exists h1, run o es h = Some h1 /\ step o e h1 = Some h'.
Proof.
  revert h. induction es as [|e0 es IH]; intros h; simpl.
  - destruct (step o e h) as [h1|] eqn:Hstep.
    + split; [intros [= <-]; by exists h | intros (h1' & [= <-] & ?); congruence].
    + split; [done | intros (h1' & [= <-] & ?); congruence].
  - destruct (step o e0 h) as [h1|]; [apply IH|].
    split; [done | by intros (? & ? & _)].
Qed.

(** A property that holds when the hook is mounted and that every event
    keeps holds in every state the hook reaches. *)
Lemma run_invariant (o : Options) (P : Hook -> Prop) :
  (forall e h h', P h -> step o e h = Some h' -> P h') ->
  forall es h h', P h -> run o es h = Some h' -> P h'.
Proof.
  intros Hstep es. induction es as [|e es IH]; simpl; intros h h' HP Hrun.
  - by injection Hrun as <-.
  - destruct (step o e h) as [h1|] eqn:He; [|discriminate].
    eapply IH; [by eapply Hstep | done].
Qed.

Ltac string_cases :=
  repeat match goal with
         | |- context [String.eqb ?a ?b] => destruct (String.eqb_spec a b)
         end;
  simpl; try done; try congruence.

Lemma handleMessage_activeAlerts now message prev :
  activeAlerts (fst (handleMessage now message prev))
  = if String.eqb (stream_type message) "alert"
    then take 100 (data message :: activeAlerts prev)
    else activeAlerts prev.
Proof. unfold handleMessage. string_cases. by case_match. Qed.

Lemma handleMessage_effects now message prev :
  snd (handleMessage now message prev)
  = if String.eqb (stream_type message) "alert" then [OnAlert (data message)]
    else [].
Proof. unfold handleMessage. string_cases. Qed.

Lemma step_activeAlerts (o : Options) (e : Event) (h h' : Hook) :
  edits_alerts e = false -> step o e h = Some h' ->
  activeAlerts (state h')
  = match delivered_alerts [e] with
    | a :: _ => take 100 (a :: activeAlerts (state h))
    | [] => activeAlerts (state h)
    end.
Proof.
  intros He Hstep.
  destruct e as [| | | |ws|ws now [message|]|ws|t]; simpl in He; try discriminate.
  4: { simpl in Hstep. destruct (sockets h !! ws) as [[]|]; try discriminate.
       injection Hstep as <-. unfold onmessage. cbn [state setState call].
       rewrite handleMessage_activeAlerts. unfold delivered_alerts. simpl.
       by destruct (String.eqb _ _). }
  all: simpl in Hstep |- *; repeat (case_match; try discriminate);
    injection Hstep as <-; unfold_handlers; simpl; try done;
    by repeat case_match.
Qed.

Lemma step_onAlert_calls (o : Options) (e : Event) (h h' : Hook) :
  step o e h = Some h' ->
  onAlert_calls (effects h') = (onAlert_calls (effects h) ++ delivered_alerts [e])%list.
Proof.
  intros Hstep.
  destruct e as [| | | |ws|ws now [message|]|ws|t].
  6: { simpl in Hstep. destruct (sockets h !! ws) as [[]|]; try discriminate.
       injection Hstep as <-. unfold onmessage. cbn [effects setState call].
       rewrite handleMessage_effects. unfold delivered_alerts, onAlert_calls.
       rewrite !omap_app. simpl.
       destruct (String.eqb _ _); simpl; by rewrite ?app_nil_r. }
  all: simpl in Hstep |- *; repeat (case_match; try discriminate);
    injection Hstep as <-; unfold_handlers; simpl;
    unfold onAlert_calls; rewrite ?omap_app; simpl; rewrite ?app_nil_r; try done;
    repeat case_match; simpl; rewrite ?omap_app; simpl; by rewrite ?app_nil_r.
Qed.

Lemma run_onAlert_calls (o : Options) (es : list Event) (h : Hook) :
  run o es mount = Some h -> onAlert_calls (effects h) = delivered_alerts es.
Proof.
  revert h. induction es as [|e es IH] using rev_ind; intros h Hrun.
  - by injection Hrun as <-.
  - apply run_snoc in Hrun as (h1 & Hrun & Hstep).
    rewrite (step_onAlert_calls o e h1 h) by done.
    rewrite (IH h1) by done. unfold delivered_alerts. by rewrite omap_app.
Qed.

Lemma run_activeAlerts (o : Options) (es : list Event) (h : Hook) :
  forallb (fun e => negb (edits_alerts e)) es = true ->
  run o es mount = Some h ->
  activeAlerts (state h) = take 100 (reverse (delivered_alerts es)).
Proof.
  revert h. induction es as [|e es IH] using rev_ind; intros h Hes Hrun.
  - by injection Hrun as <-.
  - rewrite forallb_app in Hes. apply andb_true_iff in Hes as [Hes He].
    simpl in He. rewrite andb_true_r in He. apply negb_true_iff in He.
    apply run_snoc in Hrun as (h1 & Hrun & Hstep).
    rewrite (step_activeAlerts o e h1 h) by done.
    rewrite (IH h1) by done.
    assert (delivered_alerts (es ++ [e])
            = (delivered_alerts es ++ delivered_alerts [e])%list) as ->
      by apply omap_app.
    rewrite reverse_app.
    destruct (delivered_alerts [e]) as [|a l] eqn:Hd; [done|].
    assert (l = []) as ->.
    { unfold delivered_alerts in Hd. simpl in Hd. by repeat case_match; simplify_eq. }
    simpl. apply (take_cons_take 100).
Qed.

(** X5.  The hook is mounted and anything happens except [clearAlerts]
    and [dismissAlert].  The alert list is then the 100 newest payloads
    of the [alert] frames delivered, newest first, whatever other frames
    and reconnections came in between; and [onAlert] has been called
    once for every alert frame, in the order of arrival, also for those
    that were later evicted. *)
Theorem alerts_newest_first_bounded (o : Options) (es : list Event) (h : Hook) :
  forallb (fun e => negb (edits_alerts e)) es = true ->
  run o es mount = Some h ->
  activeAlerts (state h) = take 100 (reverse (delivered_alerts es)) /\
  length (activeAlerts (state h)) = Nat.min (length (delivered_alerts es)) 100 /\
  onAlert_calls (effects h) = delivered_alerts es.
Proof.
  intros Hes Hrun. split; [by apply (run_activeAlerts o)|]. split.
  - rewrite (run_activeAlerts o es h) by done.
    rewrite length_take, length_reverse. lia.
  - by apply (run_onAlert_calls o).
Qed.

Lemma alerts_newest_first_example :
  let a1 := [("alert_id", JStr "A1")] in
  let a2 := [("alert_id", JStr "A2")] in
  let es := [CallConnect; WsOpen 0; WsMessage 0 1%Z (Some (frame "alert" a1));
             WsClose 0; TimerFires 1; WsOpen 1;
             WsMessage 1 2%Z (Some (frame "alert" a2))] in
  let h := default mount (run defaultOptions es mount) in
  activeAlerts (state h) = [a2; a1] /\ onAlert_calls (effects h) = [a1; a2].
Proof.
  intros a1 a2 es h.
  assert (run defaultOptions es mount = Some h) as Hrun by (vm_compute; reflexivity).
  destruct (alerts_newest_first_bounded defaultOptions es h eq_refl Hrun)
    as (Ha & _ & Hc).
  split; [exact Ha | exact Hc].
Defined.

(** ** Bounds *)

Lemma handleMessage_recentWIPMovements now message prev :
  recentWIPMovements (fst (handleMessage now message prev))
  = if String.eqb (stream_type message) "wip_movement"
    then take 50 (data message :: recentWIPMovements prev)
    else recentWIPMovements prev.
Proof. unfold handleMessage. string_cases. by case_match. Qed.

Lemma filter_length_le {A} (f : A -> bool) (l : list A) :
  length (List.filter f l) <= length l.
Proof. induction l as [|x l IH]; simpl; [done|]. destruct (f x); simpl; lia. Qed.

Lemma step_lists_bounded (o : Options) (e : Event) (h h' : Hook) :
  length (recentWIPMovements (state h)) <= 50 /\
  length (activeAlerts (state h)) <= 100 ->
  step o e h = Some h' ->
  length (recentWIPMovements (state h')) <= 50 /\
  length (activeAlerts (state h')) <= 100.
Proof.
  intros [Hw Ha] Hstep.
  destruct e as [| | |alertId|ws|ws now [message|]|ws|t].
  6: { simpl in Hstep. destruct (sockets h !! ws) as [[]|]; try discriminate.
       injection Hstep as <-. unfold onmessage. cbn [state setState call].
       rewrite handleMessage_recentWIPMovements, handleMessage_activeAlerts.
       split; destruct (String.eqb _ _); try done; rewrite length_take; lia. }
  4: { injection Hstep as <-. simpl. split; [done|].
       etrans; [apply filter_length_le | done]. }
  all: simpl in Hstep; repeat (case_match; try discriminate);
    injection Hstep as <-; unfold_handlers; simpl;
    repeat case_match; simpl; split; try done; lia.
Qed.

(** ** Events of useRealtimeAlerts *)

Lemma step_effects (o : Options) (e : Event) (h h' : Hook) :
  step o e h = Some h' -> exists l, effects h' = (effects h ++ l)%list.
Proof.
  intros Hstep.
  destruct e as [| | |alertId|ws|ws now parsed|ws|t]; simpl in Hstep;
    repeat (case_match; try discriminate); injection Hstep as <-;
    unfold_handlers; simpl; repeat (case_match; simpl);
    try (by eexists); try (by (exists []; rewrite app_nil_r)).
Qed.

(** The [onAlert] calls of one step are the alert frames it delivers. *)
Lemma step_called (o : Options) (e : Event) (h h' : Hook) :
  step o e h = Some h' -> onAlert_calls (called h h') = delivered_alerts [e].
Proof.
  intros Hstep. pose proof (step_onAlert_calls o e h h' Hstep) as Hcalls.
  destruct (step_effects o e h h' Hstep) as [l Hl].
  unfold called. rewrite Hl, drop_app_length.
  rewrite Hl in Hcalls. unfold onAlert_calls in Hcalls |- *.
  rewrite omap_app in Hcalls. by apply app_inv_head in Hcalls.
Qed.

Lemma delivered_alerts_one (e : Event) :
  delivered_alerts [e] = [] \/ exists a, delivered_alerts [e] = [a].
Proof.
  unfold delivered_alerts. simpl. repeat case_match; eauto.
Qed.

Lemma alerts_step_inside (maxAlerts : nat) (e : Event)
    (w w' : RealtimeAlerts.Hook) :
  RealtimeAlerts.step maxAlerts (RealtimeAlerts.Inside e) w = Some w' ->
  edits_alerts e = false /\
  step RealtimeAlerts.options e (RealtimeAlerts.inside w)
  = Some (RealtimeAlerts.inside w') /\
  RealtimeAlerts.alerts w'
  = match delivered_alerts [e] with
    | a :: _ => take maxAlerts (a :: RealtimeAlerts.alerts w)
    | [] => RealtimeAlerts.alerts w
    end.
Proof.
  unfold RealtimeAlerts.step. intros Hstep.
  destruct (edits_alerts e); [discriminate|]. split; [done|].
  destruct (step RealtimeAlerts.options e (RealtimeAlerts.inside w)) as [h'|] eqn:Hin;
    [|discriminate].
  injection Hstep as <-. rewrite (step_called _ e _ h' Hin).
  by destruct (delivered_alerts_one e) as [Hd | [a Hd]]; rewrite Hd.
Qed.

Lemma alerts_run_snoc (maxAlerts : nat) (es : list RealtimeAlerts.Event)
    (e : RealtimeAlerts.Event) (w w' : RealtimeAlerts.Hook) :
  RealtimeAlerts.run maxAlerts (es ++ [e]) w = Some w' <->
  exists w1, RealtimeAlerts.run maxAlerts es w = Some w1 /\
             RealtimeAlerts.step maxAlerts e w1 = Some w'.
Proof.
  revert w. induction es as [|e0 es IH]; intros w; cbn [RealtimeAlerts.run app].
  - destruct (RealtimeAlerts.step maxAlerts e w) as [w1|] eqn:Hstep.
    + split; [intros [= <-]; by exists w | intros (w1' & [= <-] & ?); congruence].
    + split; [done | intros (w1' & [= <-] & ?); congruence].
  - destruct (RealtimeAlerts.step maxAlerts e0 w) as [w1|]; [apply IH|].
    split; [done | by intros (? & ? & _)].
Qed.

Lemma alerts_step_length (maxAlerts : nat) (e : RealtimeAlerts.Event)
    (w w' : RealtimeAlerts.Hook) :
  length (RealtimeAlerts.alerts w) <= maxAlerts ->
  RealtimeAlerts.step maxAlerts e w = Some w' ->
  length (RealtimeAlerts.alerts w') <= maxAlerts.
Proof.
  intros Hlen Hstep. destruct e as [e|].
  - apply alerts_step_inside in Hstep as (_ & _ & ->).
    destruct (delivered_alerts [e]); [done|]. rewrite length_take. lia.
  - injection Hstep as <-. simpl. lia.
Qed.

(** X6.  In every state the hook reaches, whatever the events, the WIP
    list holds at most 50 movements and the alert list at most 100
    alerts; and in every state [useRealtimeAlerts] reaches, its own
    calls of [clearAlerts] included, its list holds at most [maxAlerts]
    alerts. *)
Theorem stored_lists_bounded :
  (forall (o : Options) (es : list Event) (h : Hook),
      run o es mount = Some h ->
      length (recentWIPMovements (state h)) <= 50 /\
      length (activeAlerts (state h)) <= 100) /\
  (forall (maxAlerts : nat) (es : list RealtimeAlerts.Event)
          (w : RealtimeAlerts.Hook),
      RealtimeAlerts.run maxAlerts es RealtimeAlerts.mount = Some w ->
      length (RealtimeAlerts.alerts w) <= maxAlerts).
Proof.
  split.
  - intros o es h Hrun.
    apply (run_invariant o (fun h => length (recentWIPMovements (state h)) <= 50 /\
                                      length (activeAlerts (state h)) <= 100))
      with (es := es) (h := mount); [|simpl; lia|done].
    intros e h1 h2. apply step_lists_bounded.
  - intros maxAlerts es. induction es as [|e es IH] using rev_ind; intros w Hrun.
    + injection Hrun as <-. simpl. lia.
    + apply alerts_run_snoc in Hrun as (w1 & Hrun & Hstep).
      by apply (alerts_step_length maxAlerts e w1); [apply IH|].
Qed.

Lemma stored_lists_bounded_example :
  let a1 := [("alert_id", JStr "A1")] in
  let a2 := [("alert_id", JStr "A2")] in
  let es := [RealtimeAlerts.Inside CallConnect; RealtimeAlerts.Inside (WsOpen 0);
             RealtimeAlerts.Inside (WsMessage 0 1%Z (Some (frame "alert" a1)));
             RealtimeAlerts.CallClear;
             RealtimeAlerts.Inside (WsMessage 0 2%Z (Some (frame "alert" a2)))] in
  let w := default RealtimeAlerts.mount
             (RealtimeAlerts.run 1 es RealtimeAlerts.mount) in
  length (RealtimeAlerts.alerts w) <= 1.
Proof.
  intros a1 a2 es w.
  apply (proj2 stored_lists_bounded 1 es w).
  vm_compute. reflexivity.
Defined.

(** ** The counter *)

Lemma step_messageCount (o : Options) (e : Event) (h h' : Hook) :
  step o e h = Some h' ->
  messageCount (state h') = messageCount (state h) + length (omap parsed_frame [e]) /\
  onMessage_calls (effects h')
  = (onMessage_calls (effects h) ++ omap parsed_frame [e])%list.
Proof.
  intros Hstep.
  destruct e as [| | |alertId|ws|ws now [message|]|ws|t].
  6: { simpl in Hstep. destruct (sockets h !! ws) as [[]|]; try discriminate.
       injection Hstep as <-. unfold onmessage. cbn [state effects setState call].
       destruct (handleMessage_counts now message (state h)) as [-> _].
       split; [done|]. unfold onMessage_calls. rewrite !omap_app.
       rewrite handleMessage_effects. by destruct (String.eqb _ _). }
  all: simpl in Hstep |- *; repeat (case_match; try discriminate);
    injection Hstep as <-; unfold_handlers; simpl;
    unfold onMessage_calls; rewrite ?omap_app; simpl; rewrite ?app_nil_r;
    repeat case_match; simpl; rewrite ?omap_app; simpl; rewrite ?app_nil_r;
    split; try done; lia.
Qed.

(** X7.  In every state the hook reaches, [messageCount] is the number of
    frames that parsed, over all the sockets the hook has had, and
    [onMessage] has been called with exactly those frames, in order.  A
    frame that does not parse is not counted, and no reconnection resets
    the counter. *)
Theorem message_count_is_frames_parsed (o : Options) (es : list Event) (h : Hook) :
  run o es mount = Some h ->
  messageCount (state h) = length (omap parsed_frame es) /\
  onMessage_calls (effects h) = omap parsed_frame es.
Proof.
  revert h. induction es as [|e es IH] using rev_ind; intros h Hrun.
  - by injection Hrun as <-.
  - apply run_snoc in Hrun as (h1 & Hrun & Hstep).
    destruct (IH h1 Hrun) as [Hc Hm].
    destruct (step_messageCount o e h1 h Hstep) as [-> ->].
    rewrite Hc, Hm, omap_app, length_app. done.
Qed.

Lemma message_count_example :
  let es := [CallConnect; WsOpen 0;
             WsMessage 0 1%Z (Some (frame "metrics" []));
             WsMessage 0 2%Z None;
             WsClose 0; TimerFires 1; WsOpen 1;
             WsMessage 1 3%Z (Some (frame "later_type" []))] in
  let h := default mount (run defaultOptions es mount) in
  messageCount (state h) = 2.
Proof.
  intros es h.
  assert (run defaultOptions es mount = Some h) as Hrun by (vm_compute; reflexivity).
  exact (proj1 (message_count_is_frames_parsed defaultOptions es h Hrun)).
Defined.

(** ** The equipment map *)

Lemma handleMessage_equipmentStatuses now message prev :
  equipmentStatuses (fst (handleMessage now message prev))
  = if String.eqb (stream_type message) "equipment_status"
    then Map_set (get (data message) "equipment_id") (data message)
           (equipmentStatuses prev)
    else equipmentStatuses prev.
Proof. unfold handleMessage. string_cases. by case_match. Qed.

Lemma Map_get_set_other {V} (j k : JSVal) (v : V) (m : Map V) :
  SameValueZero k j = false -> Map_get j (Map_set k v m) = Map_get j m.
Proof.
  intros Hkj. induction m as [|[k' v'] rest IH]; simpl.
  - by rewrite Hkj.
  - destruct (SameValueZero k' k) eqn:E; simpl.
    + apply SameValueZero_eq in E. subst k'. by rewrite Hkj.
    + by rewrite IH.
Qed.

Lemma Map_ok_entries {V} (k : JSVal) (m : Map V) :
  Map_ok m -> length (Map_entries_of k m) <= 1.
Proof.
  unfold Map_entries_of. induction m as [|[k' v'] rest IH]; simpl; [lia|].
  intros [Hnone Hok]. destruct (SameValueZero k' k) eqn:E; simpl.
  - apply SameValueZero_eq in E. subst k'.
    unfold Map_entries_of in Hnone. rewrite Hnone. simpl. lia.
  - by apply IH.
Qed.

Lemma step_equipmentStatuses (o : Options) (e : Event) (h h' : Hook) :
  step o e h = Some h' ->
  equipmentStatuses (state h')
  = match delivered_equipment [e] with
    | d :: _ => Map_set (get d "equipment_id") d (equipmentStatuses (state h))
    | [] => equipmentStatuses (state h)
    end.
Proof.
  intros Hstep.
  destruct e as [| | |alertId|ws|ws now [message|]|ws|t].
  6: { simpl in Hstep. destruct (sockets h !! ws) as [[]|]; try discriminate.
       injection Hstep as <-. unfold onmessage. cbn [state setState call].
       rewrite handleMessage_equipmentStatuses. unfold delivered_equipment. simpl.
       by destruct (String.eqb _ _). }
  all: simpl in Hstep |- *; repeat (case_match; try discriminate);
    injection Hstep as <-; unfold_handlers; simpl; try done;
    by repeat case_match.
Qed.

(** X8.  In every state the hook reaches, the equipment map holds for an
    equipment id the payload of the last [equipment_status] frame that
    was delivered with that id, and nothing for an id no frame carried;
    no id has two entries. *)
Theorem equipment_map_holds_latest (o : Options) (es : list Event) (h : Hook)
    (id : string) :
  run o es mount = Some h ->
  Map_get (Some (JStr id)) (equipmentStatuses (state h))
  = last (List.filter (fun d => strict_eq_string (get d "equipment_id") id)
            (delivered_equipment es)) /\
  length (Map_entries_of (Some (JStr id)) (equipmentStatuses (state h))) <= 1.
Proof.
  intros Hrun. split; [|by apply Map_ok_entries, (reachable_Map_ok o es)].
  revert h Hrun. induction es as [|e es IH] using rev_ind; intros h Hrun.
  - by injection Hrun as <-.
  - apply run_snoc in Hrun as (h1 & Hrun & Hstep).
    rewrite (step_equipmentStatuses o e h1 h Hstep).
    assert (delivered_equipment (es ++ [e])
            = (delivered_equipment es ++ delivered_equipment [e])%list) as ->
      by apply omap_app.
    rewrite List.filter_app.
    destruct (delivered_equipment [e]) as [|d l] eqn:Hd.
    + simpl. rewrite app_nil_r. by apply IH.
    + assert (l = []) as ->.
      { unfold delivered_equipment in Hd. simpl in Hd.
        by repeat case_match; simplify_eq. }
      simpl. destruct (strict_eq_string (get d "equipment_id") id) eqn:Hid.
      * rewrite last_snoc.
        assert (get d "equipment_id" = Some (JStr id)) as ->.
        { unfold strict_eq_string in Hid. repeat case_match; try discriminate.
          apply String.eqb_eq in Hid. by subst. }
        apply Map_get_set. apply String.eqb_refl.
      * rewrite app_nil_r, Map_get_set_other; [by apply IH|].
        unfold strict_eq_string in Hid. unfold SameValueZero.
        by repeat case_match.
Qed.

Lemma equipment_map_example :
  let es := [CallConnect; WsOpen 0;
             WsMessage 0 1%Z
               (Some (frame "equipment_status" (equipment "EQ-1" "RUNNING" "IDLE")));
             WsMessage 0 2%Z
               (Some (frame "equipment_status" (equipment "EQ-2" "DOWN" "IDLE")));
             WsMessage 0 3%Z
               (Some (frame "equipment_status" (equipment "EQ-1" "IDLE" "RUNNING")))] in
  let h := default mount (run defaultOptions es mount) in
  Map_get (Some (JStr "EQ-1")) (equipmentStatuses (state h))
  = Some (equipment "EQ-1" "IDLE" "RUNNING").
Proof.
  intros es h.
  assert (run defaultOptions es mount = Some h) as Hrun by (vm_compute; reflexivity).
  exact (proj1 (equipment_map_holds_latest defaultOptions es h "EQ-1" Hrun)).
Defined.

(** ** The status and the transport *)

Lemma handleMessage_connectionStatus now message prev :
  connectionStatus (fst (handleMessage now message prev)) = connectionStatus prev.
Proof. unfold handleMessage. string_cases. by case_match. Qed.

Lemma chain_current (o : Options) (h : Hook) (ws : nat) (r : ReadyState) :
  chain_inv o h -> sockets h !! ws = Some r -> r <> CLOSED ->
  wsRef h = Some ws /\ ws < length (sockets h) /\ timers h = [].
Proof.
  intros Hinv Hws Hr.
  destruct (chain_inv_live_socket o h ws r Hinv Hws Hr) as [Hlast Hno].
  destruct Hinv as (_ & (ws' & Href & Hlen) & _).
  split; [|split; [lia|done]]. rewrite Href. f_equal. lia.
Qed.

Lemma chain_status_step (o : Options) (e : Event) (h h' : Hook) :
  automatic e = true -> chain_inv o h ->
  status_inv h /\ timer_in_ref h ->
  step o e h = Some h' ->
  status_inv h' /\ timer_in_ref h'.
Proof.
  intros He Hinv [Hst Htr] Hstep.
  destruct e as [| | |alertId|ws|ws now parsed|ws|t]; simpl in He; try discriminate;
    simpl in Hstep.
  - destruct (sockets h !! ws) as [[]|] eqn:Hws; try discriminate.
    injection Hstep as <-.
    destruct (chain_current o h ws CONNECTING Hinv Hws) as (Href & Hlt & Hno);
      [done|].
    unfold status_inv, timer_in_ref, current_readyState. simpl.
    rewrite Href, Hno, list_lookup_insert_eq by done. split; [done|]. by intros t [].
  - destruct (sockets h !! ws) as [[]|] eqn:Hws; try discriminate.
    injection Hstep as <-.
    assert (connectionStatus (state (onmessage now parsed h))
            = connectionStatus (state h)) as Hsame.
    { destruct parsed; simpl; [apply handleMessage_connectionStatus | done]. }
    unfold status_inv, timer_in_ref, current_readyState in *. rewrite Hsame.
    by destruct parsed.
  - assert (exists r, sockets h !! ws = Some r /\ r <> CLOSED
                      /\ h' = onclose o (set_readyState ws CLOSED h))
      as (r & Hws & Hr & ->).
    { destruct (sockets h !! ws) as [[]|]; try discriminate;
        injection Hstep as <-; by eexists. }
    destruct (chain_current o h ws r Hinv Hws Hr) as (Href & Hlt & Hno).
    unfold onclose. simpl.
    destruct (reconnectAttemptsRef h <? maxReconnectAttempts o)%nat;
      unfold status_inv, timer_in_ref, current_readyState; simpl;
      rewrite Href, Hno, list_lookup_insert_eq by done; simpl.
    + split; [done|]. intros t [<-|[]]. done.
    + split; [done|]. by intros t [].
  - destruct (existsb (Nat.eqb t) (timers h)) eqn:Ht; try discriminate.
    injection Hstep as <-.
    destruct Hinv as (_ & (ws & Href & Hlen) & _ & Htim).
    destruct Htim as [Hno|([t0 Hone] & _ & Hall)]; [by rewrite Hno in Ht|].
    rewrite Hone in Ht. simpl in Ht. rewrite orb_false_r in Ht.
    apply Nat.eqb_eq in Ht. subst t0.
    assert (sockets h !! ws = Some CLOSED) as Hws.
    { destruct (lookup_lt_is_Some_2 (sockets h) ws) as [r Hr]; [lia|].
      by rewrite Hr, (Hall ws r Hr). }
    unfold reconnect_callback, connect, current_is_open. simpl.
    rewrite Href, Hws.
    unfold status_inv, timer_in_ref, current_readyState. simpl.
    rewrite Hone. simpl. rewrite Nat.eqb_refl. simpl.
    rewrite lookup_app_r, Nat.sub_diag by done. split; [done|]. by intros t' [].
Qed.

Lemma chain_status (o : Options) (es : list Event) (h : Hook) :
  forallb automatic es = true ->
  run o es (connect mount) = Some h ->
  chain_inv o h /\ status_inv h /\ timer_in_ref h.
Proof.
  assert (forall h0, chain_inv o h0 /\ status_inv h0 /\ timer_in_ref h0 ->
                     forallb automatic es = true -> run o es h0 = Some h ->
                     chain_inv o h /\ status_inv h /\ timer_in_ref h) as Hgen.
  { induction es as [|e es IH]; simpl; intros h0 (Hc & Hs) Hes Hrun.
    - by injection Hrun as <-.
    - apply andb_true_iff in Hes as [He Hes].
      destruct (step o e h0) as [h1|] eqn:Hstep; [|discriminate].
      apply (IH h1); [|done|done].
      split; [by eapply chain_inv_step | by eapply chain_status_step]. }
  intros Hes Hrun. apply (Hgen (connect mount)); [|done|done].
  split; [apply chain_inv_init|]. split; [by split | by intros t []].
Qed.

(** X10.  The hook is mounted, [connect] is called once, and transport
    and timer events follow.  Then the status tells where the transport
    is: [connecting] exactly while the current socket is CONNECTING,
    [connected] exactly while it is OPEN, [reconnecting] exactly while a
    retry is pending, and [disconnected] exactly when the socket is
    closed and no retry is pending. *)
Theorem status_tells_transport (o : Options) (es : list Event) (h : Hook) :
  forallb automatic es = true ->
  run o es (connect mount) = Some h ->
  (connectionStatus (state h) = connecting
   <-> current_readyState h = Some CONNECTING) /\
  (connectionStatus (state h) = connected
   <-> current_readyState h = Some OPEN) /\
  (connectionStatus (state h) = reconnecting <-> timers h <> []) /\
  (connectionStatus (state h) = disconnected
   <-> current_readyState h = Some CLOSED /\ timers h = []).
Proof.
  intros Hes Hrun. destruct (chain_status o es h Hes Hrun) as (_ & Hst & _).
  unfold status_inv in Hst.
  destruct (connectionStatus (state h)); destruct Hst as [Hr Ht];
    rewrite Hr; repeat split; try done; try congruence;
    try (intros [? ?]; congruence).
Qed.

Lemma status_tells_transport_example :
  let h := default mount
             (run defaultOptions [WsOpen 0; WsClose 0] (connect mount)) in
  connectionStatus (state h) = reconnecting <-> timers h <> [].
Proof.
  intros h.
  assert (run defaultOptions [WsOpen 0; WsClose 0] (connect mount) = Some h) as Hrun
    by (vm_compute; reflexivity).
  destruct (status_tells_transport defaultOptions [WsOpen 0; WsClose 0] h
              eq_refl Hrun) as (_ & _ & Hre & _).
  exact Hre.
Defined.

(** X11.  In such a hook, [subscribe], [unsubscribe], [requestMetrics]
    and [ping] hand their frame to the socket exactly when [isConnected]
    is true; otherwise they send nothing. *)
Theorem control_frames_sent_iff_connected (o : Options) (es : list Event) (h : Hook)
    (streams : list string) :
  forallb automatic es = true ->
  run o es (connect mount) = Some h ->
  subscribe streams h = (if isConnected h then [Subscribe streams] else []) /\
  unsubscribe streams h = (if isConnected h then [Unsubscribe streams] else []) /\
  requestMetrics h = (if isConnected h then [RequestMetrics] else []) /\
  ping h = (if isConnected h then [Ping] else []).
Proof.
  intros Hes Hrun. destruct (chain_status o es h Hes Hrun) as (_ & Hst & _).
  assert (current_is_open h = isConnected h) as Hopen.
  { unfold status_inv, current_readyState in Hst.
    unfold current_is_open, isConnected.
    destruct (connectionStatus (state h)); destruct Hst as [Hr _];
      destruct (wsRef h); try discriminate; by rewrite Hr. }
  unfold subscribe, unsubscribe, requestMetrics, ping, send_if_open.
  by rewrite Hopen.
Qed.

Lemma control_frames_example :
  let h := default mount (run defaultOptions [WsOpen 0] (connect mount)) in
  let h' := default mount (run defaultOptions [WsOpen 0; WsClose 0] (connect mount)) in
  subscribe ["alert"] h = [Subscribe ["alert"]] /\ ping h' = [].
Proof.
  intros h h'.
  assert (run defaultOptions [WsOpen 0] (connect mount) = Some h) as Hrun
    by (vm_compute; reflexivity).
  assert (run defaultOptions [WsOpen 0; WsClose 0] (connect mount) = Some h') as Hrun'
    by (vm_compute; reflexivity).
  split.
  - exact (proj1 (control_frames_sent_iff_connected defaultOptions [WsOpen 0] h
                    ["alert"] eq_refl Hrun)).
  - destruct (control_frames_sent_iff_connected defaultOptions [WsOpen 0; WsClose 0] h'
                [] eq_refl Hrun') as (_ & _ & _ & Hping).
    exact Hping.
Defined.

(** ** After disconnect *)

Lemma disconnect_disconnected_inv (o : Options) (h : Hook) :
  chain_inv o h -> timer_in_ref h -> disconnected_inv o (disconnect o h).
Proof.
  intros (_ & (ws & Href & Hlen) & Hold & Htim) Htr.
  assert (timers (match reconnectTimeoutRef h with
                  | Some t => remove_timer t h
                  | None => h
                  end) = []) as Hno.
  { destruct Htim as [Hno|([t Hone] & _)].
    - destruct (reconnectTimeoutRef h); simpl; by rewrite Hno.
    - rewrite (Htr t) by (rewrite Hone; by left). simpl. rewrite Hone. simpl.
      by rewrite Nat.eqb_refl. }
  unfold disconnect, disconnected_inv.
  set (h1 := match reconnectTimeoutRef h with
             | Some t => remove_timer t h
             | None => h
             end) in *.
  assert (sockets h1 = sockets h /\ wsRef h1 = wsRef h) as [Hs Hw]
    by (unfold h1; by destruct (reconnectTimeoutRef h)).
  cbn [wsRef set_reconnectAttempts]. rewrite Hw, Href.
  unfold close_socket. cbn [sockets set_reconnectAttempts]. rewrite Hs.
  assert (forall i r, sockets h !! i = Some r -> i <> ws -> r = CLOSED) as Hothers.
  { intros i r Hi Hne. apply lookup_lt_Some in Hi as Hlt.
    apply (Hold i); [done|lia]. }
  destruct (sockets h !! ws) as [[]|] eqn:Hws; simpl;
    (split; [done|]; split; [done|]; split; [done|]); intros i r Hi.
  1,2: destruct (decide (i = ws)) as [->|Hne];
    [rewrite Hs, list_lookup_insert_eq in Hi by lia; right; congruence
    |rewrite Hs, list_lookup_insert_ne in Hi by done; left; by apply (Hothers i)].
  all: rewrite Hs in Hi; destruct (decide (i = ws)) as [->|Hne];
    [rewrite Hws in Hi; simplify_eq; auto
    |left; by apply (Hothers i)].
Qed.

Lemma disconnected_step (o : Options) (e : Event) (h h' : Hook) :
  automatic e = true -> disconnected_inv o h -> step o e h = Some h' ->
  disconnected_inv o h' /\ connections h' = connections h /\
  connectionStatus (state h') = disconnected.
Proof.
  intros He (Hno & Hatt & Href & Hall) Hstep.
  destruct e as [| | |alertId|ws|ws now parsed|ws|t]; simpl in He; try discriminate;
    simpl in Hstep.
  - destruct (sockets h !! ws) as [r|] eqn:Hws; [|discriminate].
    by destruct (Hall ws r Hws) as [-> | ->].
  - destruct (sockets h !! ws) as [r|] eqn:Hws; [|discriminate].
    by destruct (Hall ws r Hws) as [-> | ->].
  - destruct (sockets h !! ws) as [r|] eqn:Hws; [|discriminate].
    destruct (Hall ws r Hws) as [-> | ->]; [discriminate|].
    injection Hstep as <-. unfold onclose. simpl.
    rewrite Hatt, Nat.ltb_irrefl. unfold disconnected_inv, connections. simpl.
    rewrite length_insert. repeat split; try done.
    intros i r Hi. destruct (decide (i = ws)) as [->|Hne].
    + apply lookup_lt_Some in Hws.
      rewrite list_lookup_insert_eq in Hi by done. left. congruence.
    + rewrite list_lookup_insert_ne in Hi by done. by apply (Hall i).
  - by rewrite Hno in Hstep.
Qed.

Lemma disconnected_run (o : Options) (es : list Event) (h h' : Hook) :
  forallb automatic es = true -> disconnected_inv o h -> run o es h = Some h' ->
  disconnected_inv o h' /\ connections h' = connections h /\
  (es <> [] -> connectionStatus (state h') = disconnected).
Proof.
  revert h. induction es as [|e es IH]; simpl; intros h Hes Hinv Hrun.
  - injection Hrun as <-. done.
  - apply andb_true_iff in Hes as [He Hes].
    destruct (step o e h) as [h1|] eqn:Hstep; [|discriminate].
    destruct (disconnected_step o e h h1 He Hinv Hstep) as (Hinv1 & Hc1 & Hs1).
    destruct (IH h1 Hes Hinv1 Hrun) as (Hinv' & Hc' & Hs').
    split; [done|]. split; [congruence|]. intros _.
    destruct es as [|e' es']; [|by apply Hs'].
    simpl in Hrun. by injection Hrun as <-.
Qed.

Lemma quiescent_run (o : Options) (es : list Event) (h h' : Hook) :
  (forall i r, sockets h !! i = Some r -> r = CLOSED) -> timers h = [] ->
  forallb automatic es = true -> run o es h = Some h' -> es = [].
Proof.
  intros Hall Hno Hes Hrun. destruct es as [|e es]; [done|].
  simpl in Hes, Hrun. apply andb_true_iff in Hes as [He _].
  by rewrite (quiescent_no_step o h e Hall Hno He) in Hrun.
Qed.

Lemma onclose_sockets (o : Options) (h : Hook) : sockets (onclose o h) = sockets h.
Proof. unfold onclose. simpl. by destruct (_ <? _)%nat. Qed.

Lemma disconnect_shape (o : Options) (h : Hook) (ws : nat) :
  wsRef h = Some ws ->
  state (disconnect o h) = state h /\
  sockets (disconnect o h)
  = match sockets h !! ws with
    | Some CONNECTING | Some OPEN => <[ws := CLOSING]> (sockets h)
    | _ => sockets h
    end.
Proof.
  intros Href. unfold disconnect, close_socket.
  destruct (reconnectTimeoutRef h); simpl; rewrite Href; simpl;
    by destruct (sockets h !! ws) as [[]|].
Qed.

(** X12.  [disconnect] is final for the transport, not for the status.
    The hook is mounted, [connect] is called once, transport and timer
    events follow, and the component calls [disconnect].  Whatever the
    transport and the timers do afterwards, no socket is constructed, no
    retry is pending, the counter stays at the maximum and the ref is
    empty.  [disconnect] itself does not touch the status.  If the
    socket was connecting or open, the status keeps its value until the
    close event of that socket, the only event that can follow, and is
    [disconnected] from then on.  If a retry was pending, the close
    event has come before the call: nothing can follow, and the status
    stays [reconnecting] though no retry will be made.  If the hook had
    given up, the status stays [disconnected]. *)
Theorem disconnect_is_final (o : Options) (es es' : list Event) (h h' : Hook) :
  forallb automatic es = true ->
  run o es (connect mount) = Some h ->
  forallb automatic es' = true ->
  run o es' (disconnect o h) = Some h' ->
  connections h' = connections h /\
  timers h' = [] /\
  reconnectAttemptsRef h' = maxReconnectAttempts o /\
  wsRef h' = None /\
  match connectionStatus (state h) with
  | connecting | connected =>
      (es' = [] /\ connectionStatus (state h') = connectionStatus (state h)) \/
      (exists ws, wsRef h = Some ws /\ es' = [WsClose ws] /\
                  connectionStatus (state h') = disconnected)
  | reconnecting => es' = [] /\ connectionStatus (state h') = reconnecting
  | disconnected => es' = [] /\ connectionStatus (state h') = disconnected
  end.
Proof.
  intros Hes Hrun Hes' Hrun'.
  destruct (chain_status o es h Hes Hrun) as (Hc & Hst & Htr).
  pose proof (disconnect_disconnected_inv o h Hc Htr) as Hinv.
  destruct (disconnected_run o es' _ h' Hes' Hinv Hrun')
    as ((Hno & Hatt & Href & _) & Hconn & _).
  split.
  { rewrite Hconn. unfold connections, disconnect, close_socket. simpl.
    repeat (case_match; simpl); by rewrite ?length_insert. }
  split; [done|]. split; [done|]. split; [done|].
  destruct Hc as (_ & (ws & Hws & Hlen) & Hold & _).
  destruct (disconnect_shape o h ws Hws) as [Hstate Hsock].
  assert (forall i r, sockets h !! i = Some r -> i <> ws -> r = CLOSED) as Hothers.
  { intros i r Hi Hne. apply lookup_lt_Some in Hi as Hlt.
    apply (Hold i); [done|lia]. }
  pose proof Hinv as (Hno1 & _ & _ & Hall1).
  assert (current_readyState h = Some CLOSED ->
          es' = [] /\ connectionStatus (state h') = connectionStatus (state h))
    as Hclosed.
  { unfold current_readyState. rewrite Hws. intros Hcur. rewrite Hcur in Hsock.
    assert (es' = []) as ->.
    { apply (quiescent_run o es' (disconnect o h) h'); try done.
      rewrite Hsock. intros i r Hi. destruct (decide (i = ws)) as [->|Hne];
        [congruence | by apply (Hothers i)]. }
    injection Hrun' as <-. by rewrite Hstate. }
  assert (current_readyState h = Some CONNECTING \/ current_readyState h = Some OPEN ->
          (es' = [] /\ connectionStatus (state h') = connectionStatus (state h)) \/
          (exists ws, wsRef h = Some ws /\ es' = [WsClose ws] /\
                      connectionStatus (state h') = disconnected)) as Hlive.
  { unfold current_readyState. rewrite Hws. intros Hcur.
    assert (sockets (disconnect o h) = <[ws := CLOSING]> (sockets h)) as Hsock1
      by (rewrite Hsock; by destruct Hcur as [-> | ->]).
    assert (ws < length (sockets h)) as Hlt by lia.
    destruct es' as [|e es'']; [left; injection Hrun' as <-; by rewrite Hstate|].
    right. exists ws. split; [done|].
    cbn [forallb run] in Hes', Hrun'. apply andb_true_iff in Hes' as [He Hes''].
    destruct (step o e (disconnect o h)) as [h2|] eqn:Hstep; [|discriminate].
    destruct (disconnected_step o e _ h2 He Hinv Hstep) as ((Hno2 & _) & _ & Hst2).
    assert (e = WsClose ws /\ sockets h2 = <[ws := CLOSED]> (sockets (disconnect o h)))
      as [-> Hsock2].
    { destruct e as [| | |alertId|i|i now parsed|i|t]; simpl in He; try discriminate;
        cbn [step] in Hstep.
      - destruct (sockets (disconnect o h) !! i) as [r|] eqn:Hi; [|discriminate].
        by destruct (Hall1 i r Hi) as [-> | ->].
      - destruct (sockets (disconnect o h) !! i) as [r|] eqn:Hi; [|discriminate].
        by destruct (Hall1 i r Hi) as [-> | ->].
      - destruct (sockets (disconnect o h) !! i) as [r|] eqn:Hi; [|discriminate].
        destruct (decide (i = ws)) as [->|Hne].
        + destruct (Hall1 ws r Hi) as [-> | ->]; [discriminate|].
          injection Hstep as <-. split; [done|]. by rewrite onclose_sockets.
        + rewrite Hsock1, list_lookup_insert_ne in Hi by done.
          by rewrite (Hothers i r Hi Hne) in Hstep.
      - by rewrite Hno1 in Hstep. }
    assert (es'' = []) as ->.
    { apply (quiescent_run o es'' h2 h'); try done.
      rewrite Hsock2, Hsock1. intros i r Hi.
      destruct (decide (i = ws)) as [->|Hne].
      - rewrite list_lookup_insert_eq in Hi by (by rewrite length_insert). congruence.
      - rewrite !list_lookup_insert_ne in Hi by done. by apply (Hothers i). }
    injection Hrun' as <-. done. }
  unfold status_inv in Hst.
  destruct (connectionStatus (state h)); destruct Hst as [Hcur _]; auto;
    destruct (Hclosed Hcur) as [-> Hs]; by rewrite Hs.
Qed.

Lemma disconnect_is_final_example :
  let h := default mount (run defaultOptions [WsOpen 0] (connect mount)) in
  let h' := default mount (run defaultOptions [WsClose 0] (disconnect defaultOptions h)) in
  let g := default mount (run defaultOptions [WsOpen 0; WsClose 0] (connect mount)) in
  (connections h' = 1 /\ timers h' = []) /\
  (timers g = [1] /\ timers (disconnect defaultOptions g) = [] /\
   connectionStatus (state (disconnect defaultOptions g)) = reconnecting).
Proof.
  intros h h' g.
  assert (run defaultOptions [WsOpen 0] (connect mount) = Some h) as Hrun
    by (vm_compute; reflexivity).
  assert (run defaultOptions [WsClose 0] (disconnect defaultOptions h) = Some h')
    as Hrun' by (vm_compute; reflexivity).
  assert (run defaultOptions [WsOpen 0; WsClose 0] (connect mount) = Some g) as Hrung
    by (vm_compute; reflexivity).
  assert (connectionStatus (state g) = reconnecting) as Hstg
    by (vm_compute; reflexivity).
  destruct (disconnect_is_final defaultOptions [WsOpen 0] [WsClose 0] h h'
              eq_refl Hrun eq_refl Hrun') as (Hc & Ht & _).
  destruct (disconnect_is_final defaultOptions [WsOpen 0; WsClose 0] [] g
              (disconnect defaultOptions g) eq_refl Hrung eq_refl eq_refl)
    as (_ & Htg & _ & _ & Hs).
  rewrite Hstg in Hs.
  split; [split; [exact Hc | exact Ht]|].
  split; [vm_compute; reflexivity|]. split; [exact Htg | exact (proj2 Hs)].
Defined.

(** ** The connection id *)

Lemma step_connection_id_inv (o : Options) (e : Event) (h h' : Hook) :
  connection_id_inv h -> step o e h = Some h' -> connection_id_inv h'.
Proof.
  unfold connection_id_inv. intros Hinv Hstep.
  assert (forall ws0 r, (r = OPEN \/ r = CLOSING) ->
            (connectionId (state h) = None \/
             exists ws, sockets h !! ws = Some OPEN \/ sockets h !! ws = Some CLOSING) ->
            connectionId (state h) = None \/
            exists ws, <[ws0:=r]> (sockets h) !! ws = Some OPEN \/
                       <[ws0:=r]> (sockets h) !! ws = Some CLOSING) as Hins.
  { intros ws0 r Hr [Hnone|[ws Hws]]; [by left|]. right.
    destruct (decide (ws = ws0)) as [->|Hne].
    - exists ws0. assert (ws0 < length (sockets h)) as Hlt
        by (destruct Hws as [Hws|Hws]; by apply lookup_lt_Some in Hws).
      rewrite list_lookup_insert_eq by done. destruct Hr as [-> | ->]; auto.
    - exists ws. by rewrite list_lookup_insert_ne. }
  assert (forall h0, sockets h0 = sockets h -> state h0 = state h ->
            connectionId (state (connect h0)) = None \/
            exists ws, sockets (connect h0) !! ws = Some OPEN \/
                       sockets (connect h0) !! ws = Some CLOSING) as Hconnect.
  { intros h0 Hs Hst. unfold connect. destruct (current_is_open h0); simpl;
      rewrite ?Hs, ?Hst; [done|].
    destruct Hinv as [Hnone|[ws Hws]]; [by left|]. right. exists ws.
    assert (ws < length (sockets h)) as Hlt
      by (destruct Hws as [Hws|Hws]; by apply lookup_lt_Some in Hws).
    by rewrite lookup_app_l. }
  destruct e as [| | |alertId|ws|ws now parsed|ws|t]; simpl in Hstep.
  - injection Hstep as <-. by apply Hconnect.
  - injection Hstep as <-. unfold disconnect, close_socket.
    destruct (reconnectTimeoutRef h); simpl; destruct (wsRef h); simpl; try done;
      destruct (sockets h !! n) as [[]|] eqn:Hn; simpl; try done;
      repeat case_match; simplify_eq/=; try done; apply Hins; auto.
  - by injection Hstep as <-.
  - by injection Hstep as <-.
  - destruct (sockets h !! ws) as [[]|] eqn:Hws; try discriminate.
    injection Hstep as <-. simpl. right. exists ws.
    apply lookup_lt_Some in Hws. left. by rewrite list_lookup_insert_eq.
  - destruct (sockets h !! ws) as [[]|] eqn:Hws; try discriminate.
    injection Hstep as <-. right. exists ws. left. by destruct parsed.
  - repeat (case_match; try discriminate); injection Hstep as <-;
      unfold onclose; simpl; case_match; simpl; by left.
  - destruct (existsb (Nat.eqb t) (timers h)); try discriminate.
    injection Hstep as <-. unfold reconnect_callback. by apply Hconnect.
Qed.

(** X13.  In every state the hook reaches, whatever the events, a
    connection id is stored only while some socket has opened and its
    close event has not come: once every socket has closed, the id is
    null. *)
Theorem connection_id_needs_live_socket (o : Options) (es : list Event) (h : Hook) :
  run o es mount = Some h ->
  (forall ws r, sockets h !! ws = Some r -> r = CLOSED \/ r = CONNECTING) ->
  connectionId (state h) = None.
Proof.
  intros Hrun Hall.
  assert (connection_id_inv h) as [Hnone|[ws Hws]].
  { apply (run_invariant o connection_id_inv) with (es := es) (h := mount);
      [apply step_connection_id_inv | by left | done]. }
  - done.
  - destruct Hws as [Hws|Hws]; destruct (Hall ws _ Hws); discriminate.
Qed.

Lemma connection_id_example :
  let heartbeat := frame "heartbeat" [("connection_id", JStr "c-1")] in
  let es := [CallConnect; WsOpen 0; WsMessage 0 1%Z (Some heartbeat); WsClose 0] in
  let h := default mount (run defaultOptions es mount) in
  connectionId (state h) = None.
Proof.
  intros heartbeat es h.
  assert (run defaultOptions es mount = Some h) as Hrun by (vm_compute; reflexivity).
  apply (connection_id_needs_live_socket defaultOptions es h Hrun).
  intros ws r Hws. destruct ws as [|ws]; [|discriminate].
  vm_compute in Hws. injection Hws as <-. by left.
Defined.

(** ** The hooks built on useRealtime *)

Lemma since_clear_snoc (es : list RealtimeAlerts.Event) (e : RealtimeAlerts.Event) :
  RealtimeAlerts.since_clear (es ++ [e])
  = match e with
    | RealtimeAlerts.Inside e => (RealtimeAlerts.since_clear es ++ [e])%list
    | RealtimeAlerts.CallClear => []
    end.
Proof. unfold RealtimeAlerts.since_clear. by rewrite foldl_app. Qed.

Lemma since_clear_never (es : list RealtimeAlerts.Event) :
  RealtimeAlerts.never_cleared es = true ->
  RealtimeAlerts.since_clear es = RealtimeAlerts.inside_events es.
Proof.
  unfold RealtimeAlerts.never_cleared, RealtimeAlerts.inside_events.
  induction es as [|e es IH] using rev_ind; [done|].
  rewrite forallb_app, since_clear_snoc, omap_app. intros Hes.
  apply andb_true_iff in Hes as [Hes He].
  destruct e as [e|]; [|discriminate]. by rewrite IH.
Qed.

(** The hook inside goes through its own events, none of which edits its
    alert list. *)
Lemma alerts_run_inside (maxAlerts : nat) (es : list RealtimeAlerts.Event)
    (w : RealtimeAlerts.Hook) :
  RealtimeAlerts.run maxAlerts es RealtimeAlerts.mount = Some w ->
  run RealtimeAlerts.options (RealtimeAlerts.inside_events es) mount
  = Some (RealtimeAlerts.inside w) /\
  forallb (fun e => negb (edits_alerts e)) (RealtimeAlerts.inside_events es) = true.
Proof.
  revert w. induction es as [|e es IH] using rev_ind; intros w Hrun.
  - by injection Hrun as <-.
  - apply alerts_run_snoc in Hrun as (w1 & Hrun & Hstep).
    destruct (IH w1 Hrun) as [Hin Hed].
    unfold RealtimeAlerts.inside_events. rewrite omap_app.
    destruct e as [e|]; simpl.
    + apply alerts_step_inside in Hstep as (He & Hstep & _).
      split.
      * apply run_snoc. by exists (RealtimeAlerts.inside w1).
      * rewrite forallb_app. simpl. by rewrite He, andb_true_r.
    + injection Hstep as <-. by rewrite app_nil_r.
Qed.

Lemma alerts_run_alerts (maxAlerts : nat) (es : list RealtimeAlerts.Event)
    (w : RealtimeAlerts.Hook) :
  RealtimeAlerts.run maxAlerts es RealtimeAlerts.mount = Some w ->
  RealtimeAlerts.alerts w
  = take maxAlerts (reverse (delivered_alerts (RealtimeAlerts.since_clear es))).
Proof.
  revert w. induction es as [|e es IH] using rev_ind; intros w Hrun.
  - injection Hrun as <-. by destruct maxAlerts.
  - apply alerts_run_snoc in Hrun as (w1 & Hrun & Hstep).
    rewrite since_clear_snoc. destruct e as [e|].
    + apply alerts_step_inside in Hstep as (_ & _ & ->).
      rewrite (IH w1 Hrun).
      assert (delivered_alerts (RealtimeAlerts.since_clear es ++ [e])
              = (delivered_alerts (RealtimeAlerts.since_clear es)
                 ++ delivered_alerts [e])%list) as -> by apply omap_app.
      destruct (delivered_alerts_one e) as [-> | [a ->]].
      * by rewrite app_nil_r.
      * rewrite reverse_app. simpl. apply take_cons_take.
    + injection Hstep as <-. by destruct maxAlerts.
Qed.

(** X14.  The list of [useRealtimeAlerts] is the [maxAlerts] newest
    payloads of the alert frames delivered to the hook inside since the
    last call of its [clearAlerts], newest first.  That call empties
    this list only: the list of the hook inside goes on holding the 100
    newest alerts of all.  So as long as [clearAlerts] has not been
    called and [maxAlerts] is at most 100, the list is the first
    [maxAlerts] alerts of the list inside, and the critical and error
    counts are the counts over those. *)
Theorem useRealtimeAlerts_newest (maxAlerts : nat)
    (es : list RealtimeAlerts.Event) (w : RealtimeAlerts.Hook) :
  RealtimeAlerts.run maxAlerts es RealtimeAlerts.mount = Some w ->
  RealtimeAlerts.alerts w
  = take maxAlerts (reverse (delivered_alerts (RealtimeAlerts.since_clear es))) /\
  activeAlerts (state (RealtimeAlerts.inside w))
  = take 100 (reverse (delivered_alerts (RealtimeAlerts.inside_events es))) /\
  (RealtimeAlerts.never_cleared es = true -> maxAlerts <= 100 ->
   RealtimeAlerts.alerts w
   = take maxAlerts (activeAlerts (state (RealtimeAlerts.inside w))) /\
   RealtimeAlerts.criticalCount w
   = length (List.filter (has_string "severity" "CRITICAL")
               (take maxAlerts (activeAlerts (state (RealtimeAlerts.inside w))))) /\
   RealtimeAlerts.errorCount w
   = length (List.filter (has_string "severity" "ERROR")
               (take maxAlerts (activeAlerts (state (RealtimeAlerts.inside w)))))).
Proof.
  intros Hrun.
  pose proof (alerts_run_alerts maxAlerts es w Hrun) as Hu.
  destruct (alerts_run_inside maxAlerts es w Hrun) as [Hin Hed].
  pose proof (run_activeAlerts _ _ _ Hed Hin) as Ha.
  split; [exact Hu|]. split; [exact Ha|]. intros Hnever Hmax.
  assert (RealtimeAlerts.alerts w
          = take maxAlerts (activeAlerts (state (RealtimeAlerts.inside w)))) as Heq.
  { rewrite Hu, Ha, (since_clear_never es Hnever), take_take. f_equal. lia. }
  split; [exact Heq|].
  unfold RealtimeAlerts.criticalCount, RealtimeAlerts.errorCount. by rewrite Heq.
Qed.

Lemma useRealtimeAlerts_example :
  let a1 := [("alert_id", JStr "A1"); ("severity", JStr "CRITICAL")] in
  let a2 := [("alert_id", JStr "A2"); ("severity", JStr "INFO")] in
  let a3 := [("alert_id", JStr "A3"); ("severity", JStr "ERROR")] in
  let es := [RealtimeAlerts.Inside CallConnect; RealtimeAlerts.Inside (WsOpen 0);
             RealtimeAlerts.Inside (WsMessage 0 1%Z (Some (frame "alert" a1)));
             RealtimeAlerts.CallClear;
             RealtimeAlerts.Inside (WsMessage 0 2%Z (Some (frame "alert" a2)));
             RealtimeAlerts.Inside (WsMessage 0 3%Z (Some (frame "alert" a3)))] in
  let w := default RealtimeAlerts.mount
             (RealtimeAlerts.run 5 es RealtimeAlerts.mount) in
  RealtimeAlerts.alerts w = [a3; a2] /\
  activeAlerts (state (RealtimeAlerts.inside w)) = [a3; a2; a1].
Proof.
  intros a1 a2 a3 es w.
  assert (RealtimeAlerts.run 5 es RealtimeAlerts.mount = Some w) as Hrun
    by (vm_compute; reflexivity).
  destruct (useRealtimeAlerts_newest 5 es w Hrun) as (Hu & Ha & _).
  split; [exact Hu | exact Ha].
Defined.

(** X15.  [useRealtimeStream] holds the payload of the last frame of its
    stream type that [onMessage] was called with, and the time of that
    call; frames of other types leave both as they are, and before the
    first such frame [data] is the initial value and [lastUpdate] is
    null. *)
Theorem useRealtimeStream_latest (streamType : string) (initialValue : option JObject)
    (calls : list (Date * StreamMessage)) :
  useRealtimeStream streamType initialValue calls
  = match last (List.filter
                  (fun c => String.eqb (stream_type (snd c)) streamType) calls) with
    | Some c => (Some (data (snd c)), Some (fst c))
    | None => (initialValue, None)
    end.
Proof.
  unfold useRealtimeStream.
  induction calls as [|c calls IH] using rev_ind; [done|].
  rewrite foldl_app, List.filter_app. simpl. unfold stream_onMessage at 1.
  destruct (String.eqb (stream_type (snd c)) streamType).
  - by rewrite last_snoc.
  - by rewrite app_nil_r.
Qed.

(** ** Dismissing alerts *)

Lemma filter_filter_comm {A} (f g : A -> bool) (l : list A) :
  List.filter f (List.filter g l) = List.filter g (List.filter f l).
Proof.
  induction l as [|x l IH]; simpl; [done|].
  destruct (g x) eqn:Hg, (f x) eqn:Hf; simpl; rewrite ?Hg, ?Hf, ?IH; done.
Qed.

(** X9.  [dismissAlert(id)] removes every alert whose [alert_id] is the
    string [id] and keeps the others, in their order; an alert without a
    string [alert_id] is never removed.  The critical, error and warning
    views of the result are the views of before without the alerts of
    that id, and dismissing the same id again changes nothing. *)
Theorem dismissAlert_removes_that_id (alertId : string) (h : Hook) :
  let keeps := fun a => negb (strict_eq_string (get a "alert_id") alertId) in
  let h' := dismissAlert alertId h in
  (forall a, In a (activeAlerts (state h'))
             <-> In a (activeAlerts (state h)) /\
                 get a "alert_id" <> Some (JStr alertId)) /\
  activeAlerts (state h') `sublist_of` activeAlerts (state h) /\
  criticalAlerts (state h') = List.filter keeps (criticalAlerts (state h)) /\
  errorAlerts (state h') = List.filter keeps (errorAlerts (state h)) /\
  warningAlerts (state h') = List.filter keeps (warningAlerts (state h)) /\
  dismissAlert alertId h' = h'.
Proof.
  intros keeps h'. subst h'. simpl. split; [|split].
  - intros a. rewrite filter_In. unfold strict_eq_string.
    split; intros [Hin Hk]; (split; [done|]).
    + intros Heq. rewrite Heq in Hk. simpl in Hk. by rewrite String.eqb_refl in Hk.
    + destruct (get a "alert_id") as [[]|]; try done.
      apply negb_true_iff, String.eqb_neq. congruence.
  - induction (activeAlerts (state h)) as [|a l IH]; simpl; [done|].
    destruct (negb _); by constructor.
  - unfold criticalAlerts, errorAlerts, warningAlerts. simpl.
    split; [apply filter_filter_comm|]. split; [apply filter_filter_comm|].
    split; [apply filter_filter_comm|].
    unfold dismissAlert, setState, dismissAlert_state, with_activeAlerts. simpl.
    f_equal. f_equal.
    induction (activeAlerts (state h)) as [|a l IH]; simpl; [done|].
    destruct (negb (strict_eq_string (get a "alert_id") alertId)) eqn:Hk; simpl;
      by rewrite ?Hk, ?IH.
Qed.

End RealtimeViews.

(** * More properties of useAIInsight *)

Module InsightRuns.
Import Insight InsightProps.

Section Client.

Context {Results : Type}.
Variable JSON_stringify : Results -> string.
Variable JSON_parse : string -> option JValue.
Variable ToString : JValue -> string.

Local Abbreviation Client := (@Client Results).
Local Abbreviation hashKey := (hashKey JSON_stringify).
Local Abbreviation generate := (generate JSON_stringify).
Local Abbreviation step := (step JSON_stringify JSON_parse ToString).
Local Abbreviation run := (run JSON_stringify JSON_parse ToString).
Local Abbreviation for_lines := (for_lines JSON_parse ToString).
Local Abbreviation on_chunk := (on_chunk JSON_parse ToString).
Local Abbreviation read_all := (read_all JSON_parse ToString).

(** ** One call in flight *)

Lemma in_flight_resume_at (c : Client) (i j : nat) (a : Await) :
  in_flight (resume_at i a c) j
  = if decide (i = j)
    then match calls c !! i with
         | Some _ => match a with Returned => false | _ => true end
         | None => false
         end
    else in_flight c j.
Proof.
  unfold in_flight, resume_at. cbn [calls].
  destruct (decide (i = j)) as [->|Hne].
  - rewrite list_lookup_alter_eq. destruct (calls c !! j) as [[k a0]|]; simpl; [|done].
    by destruct a.
  - by rewrite list_lookup_alter_ne.
Qed.

Lemma in_flight_setState (f : InsightState -> InsightState) (c : Client) (j : nat) :
  in_flight (setState f c) j = in_flight c j.
Proof. done. Qed.

Lemma abort_current_none_in_flight (c : Client) (j : nat) :
  (forall i, in_flight c i = true -> abortRef c = Some i) ->
  in_flight (fst (abort_current c)) j = false.
Proof.
  intros Hinv. unfold abort_current.
  destruct (abortRef c) as [i|] eqn:Href.
  - destruct (calls c !! i) as [call|] eqn:Hcall; simpl.
    + rewrite in_flight_resume_at. destruct (decide (i = j)) as [->|Hne].
      * by rewrite Hcall.
      * destruct (in_flight c j) eqn:Hj; [|done].
        pose proof (Hinv j Hj) as Hr. simplify_eq.
    + destruct (in_flight c j) eqn:Hj; [|done].
      pose proof (Hinv j Hj) as Hr. simplify_eq.
      unfold in_flight in Hj. by rewrite Hcall in Hj.
  - simpl. destruct (in_flight c j) eqn:Hj; [|done].
    pose proof (Hinv j Hj) as Hr. simplify_eq.
Qed.

Lemma abort_current_lengths (c : Client) :
  length (calls (fst (abort_current c))) = length (calls c) /\
  requests (fst (abort_current c)) = requests c /\
  abortRef (fst (abort_current c)) = abortRef c /\
  cache (fst (abort_current c)) = cache c.
Proof.
  unfold abort_current. destruct (abortRef c) as [i|] eqn:Href; [|done].
  destruct (calls c !! i); simpl; [|done]. by rewrite length_alter.
Qed.

Lemma single_flight_step (e : Event) (c c' : Client) :
  single_flight c -> step e c = Some c' -> single_flight c'.
Proof.
  intros [Hlen Hinv] Hstep.
  assert (forall i a f,
            in_flight c i = true ->
            single_flight (resume_at i a (setState f c))) as Hresume.
  { intros i a f Hi. split.
    - simpl. by rewrite length_alter.
    - intros j Hj. rewrite in_flight_resume_at in Hj. simpl.
      destruct (decide (i = j)) as [<-|Hne]; by apply Hinv. }
  destruct e as [q r| |i status has_body|i message|i body|i value|i|i message];
    simpl in Hstep.
  - injection Hstep as <-. unfold Insight.generate.
    destruct (truthy _); [by split|].
    pose proof (abort_current_none_in_flight c) as Hnone.
    destruct (abort_current_lengths c) as (Hl & Hr & _).
    destruct (abort_current c) as [c1 k]. simpl in *. split.
    + cbn [requests calls setState start_call].
      rewrite !length_app. simpl. congruence.
    + cbn [abortRef calls setState start_call].
      intros j Hj. unfold in_flight in Hj. cbn [calls setState start_call] in Hj.
      destruct (decide (j < length (calls c1))) as [Hlt|Hge].
      * rewrite lookup_app_l in Hj by done.
        specialize (Hnone j Hinv). unfold in_flight in Hnone.
        by rewrite Hnone in Hj.
      * destruct (decide (j = length (calls c1))) as [->|Hne]; [done|].
        rewrite lookup_ge_None_2 in Hj; [done|].
        rewrite length_app. simpl. lia.
  - injection Hstep as <-. unfold Insight.clear.
    pose proof (abort_current_none_in_flight c) as Hnone.
    destruct (abort_current_lengths c) as (Hl & Hr & _).
    destruct (abort_current c) as [c1 k]. simpl in *.
    split; [cbn [requests calls setState]; by rewrite Hr, Hl|].
    intros j Hj. change (in_flight c1 j = true) in Hj.
    by rewrite (Hnone j Hinv) in Hj.
  - destruct (calls c !! i) as [[k []]|] eqn:Hc; try discriminate.
    assert (in_flight c i = true) as Hi by (unfold in_flight; by rewrite Hc).
    repeat case_match; injection Hstep as <-;
      try (apply (Hresume i _ (fun st => st) Hi)); by apply Hresume.
  - destruct (calls c !! i) as [[k []]|] eqn:Hc; try discriminate.
    injection Hstep as <-. apply Hresume. unfold in_flight. by rewrite Hc.
  - destruct (calls c !! i) as [[k []]|] eqn:Hc; try discriminate.
    injection Hstep as <-. apply Hresume. unfold in_flight. by rewrite Hc.
  - destruct (calls c !! i) as [[k []]|] eqn:Hc; try discriminate.
    injection Hstep as <-. apply Hresume. unfold in_flight. by rewrite Hc.
  - destruct (calls c !! i) as [[k []]|] eqn:Hc; try discriminate.
    injection Hstep as <-.
    assert (in_flight c i = true) as Hi by (unfold in_flight; by rewrite Hc).
    destruct (Hresume i Returned (fun _ => {| text := accumulated;
                isLoading := false; error := None |}) Hi) as [Hl' Hinv'].
    split; [exact Hl'|]. intros j Hj. by apply Hinv'.
  - destruct (calls c !! i) as [[k []]|] eqn:Hc; try discriminate.
    injection Hstep as <-. apply Hresume. unfold in_flight. by rewrite Hc.
Qed.

Lemma client_run_invariant (P : Client -> Prop) :
  (forall e c c', P c -> step e c = Some c' -> P c') ->
  forall es c c', P c -> run es c = Some c' -> P c'.
Proof.
  intros Hstep es. induction es as [|e es IH]; simpl; intros c c' HP Hrun.
  - by injection Hrun as <-.
  - destruct (step e c) as [c1|] eqn:He; [|discriminate].
    eapply IH; [by eapply Hstep | done].
Qed.

(** X16.  Single flight.  In every state the hook reaches, at most one
    call of [generate] is in flight, and it is the one whose controller
    is in [abortRef]; every call that went to the network made exactly
    one request. *)
Theorem at_most_one_call_in_flight (es : list Event) (c : Client) :
  run es mount = Some c ->
  (forall i j, in_flight c i = true -> in_flight c j = true -> i = j) /\
  (forall i, in_flight c i = true -> abortRef c = Some i) /\
  length (requests c) = length (calls c).
Proof.
  intros Hrun.
  assert (single_flight c) as [Hlen Hinv].
  { apply (client_run_invariant single_flight single_flight_step es mount); [|done].
    split; [done|]. intros i Hi. by destruct i. }
  split; [|done]. intros i j Hi Hj.
  apply Hinv in Hi, Hj. congruence.
Qed.

(** ** Failures and the cache *)

(** X17.  When a call fails (its [fetch] or a read rejects, the error
    body of a response that is not ok arrives, or an ok response has no
    body), the error message is stored and the loading flag is cleared;
    the text published so far stays, nothing is written to the cache, no
    request is made, and the call is over. *)
Theorem failure_caches_nothing (e : Event) (i : nat) (c c' : Client) :
  fails e = true ->
  promise_of e = Some i ->
  step e c = Some c' ->
  is_Some (error (state c')) /\
  isLoading (state c') = false /\
  text (state c') = text (state c) /\
  cache c' = cache c /\
  requests c' = requests c /\
  in_flight c' i = false.
Proof.
  intros Hf Hp Hstep.
  assert (forall message, c' = throw i message c ->
            is_Some (error (state c')) /\ isLoading (state c') = false /\
            text (state c') = text (state c) /\ cache c' = cache c /\
            requests c' = requests c /\ in_flight c' i = false) as Hthrow.
  { intros message ->. unfold throw. rewrite in_flight_resume_at.
    simpl. rewrite decide_True by done. repeat split; try done.
    by destruct (calls c !! i). }
  destruct e as [q r| |j status has_body|j message|j body|j value|j|j message];
    simpl in Hf, Hp, Hstep; try discriminate; injection Hp as ->;
    destruct (calls c !! i) as [[k []]|]; try discriminate.
  - apply andb_true_iff in Hf as [Hok Hb]. rewrite Hok in Hstep. simpl in Hstep.
    rewrite Hb in Hstep. injection Hstep as <-. by eapply Hthrow.
  - injection Hstep as <-. by eapply Hthrow.
  - injection Hstep as <-. by eapply Hthrow.
  - injection Hstep as <-. by eapply Hthrow.
Qed.

(** X18.  The cache is written at one place only: when the body of a
    call ends, the text accumulated by that call is stored under the key
    of that call.  Every other event leaves the cache as it is, so an
    entry, once written, is never removed. *)
Theorem cache_written_at_end_only (e : Event) (c c' : Client) :
  step e c = Some c' ->
  (cache c' = cache c \/
   exists i k accumulated,
     e = ReadEnds i /\
     calls c !! i = Some {| key := k; at_await := AwaitRead accumulated |} /\
     cache c' = <[k := accumulated]> (cache c)) /\
  (forall k, is_Some (cache c !! k) -> is_Some (cache c' !! k)).
Proof.
  intros Hstep.
  assert (cache c' = cache c \/
          exists i k accumulated,
            e = ReadEnds i /\
            calls c !! i = Some {| key := k; at_await := AwaitRead accumulated |} /\
            cache c' = <[k := accumulated]> (cache c)) as Hc.
  { destruct e as [q r| |j status has_body|j message|j body|j value|j|j message];
      simpl in Hstep.
    - injection Hstep as <-. left. unfold Insight.generate.
      destruct (truthy _); [done|].
      destruct (abort_current_lengths c) as (_ & _ & _ & Hcache).
      by destruct (abort_current c).
    - injection Hstep as <-. left. unfold Insight.clear.
      destruct (abort_current_lengths c) as (_ & _ & _ & Hcache).
      by destruct (abort_current c).
    - destruct (calls c !! j) as [[k []]|]; try discriminate.
      left. by repeat case_match; injection Hstep as <-.
    - destruct (calls c !! j) as [[k []]|]; try discriminate.
      left. by injection Hstep as <-.
    - destruct (calls c !! j) as [[k []]|]; try discriminate.
      left. by injection Hstep as <-.
    - destruct (calls c !! j) as [[k []]|]; try discriminate.
      left. by injection Hstep as <-.
    - destruct (calls c !! j) as [[k []]|] eqn:Hcall; try discriminate.
      right. injection Hstep as <-. by exists j, k, accumulated.
    - destruct (calls c !! j) as [[k []]|]; try discriminate.
      left. by injection Hstep as <-. }
  split; [exact Hc|]. intros k0 Hk.
  destruct Hc as [->|(i & k & accumulated & _ & _ & ->)]; [done|].
  destruct (decide (k = k0)) as [->|Hne].
  - rewrite lookup_insert_eq. by eexists.
  - by rewrite lookup_insert_ne.
Qed.

(** ** A whole call *)

Lemma for_lines_text (lines : list string) (accumulated : string) (st : InsightState) :
  text st = accumulated ->
  text (snd (for_lines lines accumulated st)) = fst (for_lines lines accumulated st) /\
  isLoading (snd (for_lines lines accumulated st)) = isLoading st /\
  error (snd (for_lines lines accumulated st)) = error st.
Proof.
  revert accumulated st. induction lines as [|line lines IH]; intros accumulated st Ht;
    [done|].
  rewrite for_lines_cons. cbv zeta.
  destruct (negb (startsWith line "data: ")); [by apply IH|].
  destruct (String.eqb _ _); [done|].
  destruct (JSON_parse _) as [parsed|]; [|by apply IH].
  destruct (member parsed "chunk") as [|[chunk|]]; try (by apply IH).
  destruct (truthy (Some chunk)); [|by apply IH].
  destruct (IH (accumulated ++ to_string ToString chunk)
              (with_text (accumulated ++ to_string ToString chunk) st) eq_refl)
    as (Ht' & Hl' & He').
  done.
Qed.

Lemma read_all_cons (value : string) (chunks : list string) (accumulated : string)
    (st : InsightState) :
  read_all (value :: chunks) accumulated st
  = read_all chunks (fst (on_chunk value accumulated st))
      (snd (on_chunk value accumulated st)).
Proof.
  unfold Insight.read_all. simpl. by destruct (on_chunk value accumulated st).
Qed.

Lemma read_all_text (chunks : list string) (accumulated : string) (st : InsightState) :
  text st = accumulated ->
  text (snd (read_all chunks accumulated st)) = fst (read_all chunks accumulated st) /\
  isLoading (snd (read_all chunks accumulated st)) = isLoading st /\
  error (snd (read_all chunks accumulated st)) = error st.
Proof.
  revert accumulated st. induction chunks as [|value chunks IH];
    intros accumulated st Ht; [done|].
  rewrite read_all_cons.
  destruct (for_lines_text (split_lines value) accumulated st Ht) as (H1 & H2 & H3).
  destruct (IH _ _ H1) as (H4 & H5 & H6).
  split; [exact H4|]. unfold Insight.on_chunk in *. split; congruence.
Qed.

Lemma run_reads (chunks : list string) (i : nat) (k accumulated : string) (c : Client) :
  calls c !! i = Some {| key := k; at_await := AwaitRead accumulated |} ->
  exists c2,
    run (ReadYields i <$> chunks) c = Some c2 /\
    calls c2 !! i
    = Some {| key := k;
              at_await := AwaitRead (fst (read_all chunks accumulated (state c))) |} /\
    state c2 = snd (read_all chunks accumulated (state c)) /\
    cache c2 = cache c /\ requests c2 = requests c /\ abortRef c2 = abortRef c.
Proof.
  revert accumulated c. induction chunks as [|value chunks IH]; intros accumulated c Hc.
  - exists c. by destruct c as [[] ? ? ? ?].
  - rewrite fmap_cons. cbn [Insight.run Insight.step]. rewrite Hc.
    set (c1 := resume_at i (AwaitRead (fst (on_chunk value accumulated (state c))))
                 (setState (fun _ => snd (on_chunk value accumulated (state c))) c)).
    assert (calls c1 !! i
            = Some {| key := k;
                      at_await := AwaitRead (fst (on_chunk value accumulated (state c))) |})
      as Hc1.
    { unfold c1. simpl. by rewrite list_lookup_alter_eq, Hc. }
    destruct (IH _ c1 Hc1) as (c2 & Hrun & Hcall & Hst & Hca & Hre & Hab).
    exists c2. rewrite read_all_cons. by repeat split.
Qed.

(** X19.  A call that nothing interrupts.  No call is in flight and the
    key has no cached text (or the empty one).  [generate] then sends one
    request; after the ok response and any chunks of the body, the state
    shows the text accumulated so far, still loading and with no error,
    and the cache is untouched; when the body ends, that text is the
    final text, loading is off, and the text is in the cache under the
    key. *)
Theorem uninterrupted_call_publishes_and_caches
    (queryType : string) (results : Results) (status : N) (chunks : list string)
    (c : Client) :
  (forall j, in_flight c j = false) ->
  truthy (JStr <$> cache c !! hashKey queryType results) = false ->
  ok status = true ->
  let i := length (calls c) in
  let accumulated := fst (read_all chunks "" loading) in
  exists c1 c2 : Client,
    run ([CallGenerate queryType results; FetchResponds i status true]
         ++ (ReadYields i <$> chunks)) c = Some c1 /\
    state c1 = {| text := accumulated; isLoading := true; error := None |} /\
    cache c1 = cache c /\
    requests c1 = (requests c ++ [(queryType, results)])%list /\
    step (ReadEnds i) c1 = Some c2 /\
    state c2 = {| text := accumulated; isLoading := false; error := None |} /\
    cache c2 = <[hashKey queryType results := accumulated]> (cache c) /\
    requests c2 = requests c1 /\
    in_flight c2 i = false.
Proof.
  intros Hidle Hmiss Hok i accumulated.
  assert (abort_current c = (fst (abort_current c), fun prev => prev)
          /\ calls (fst (abort_current c)) = calls c) as [Habort Hcalls].
  { unfold abort_current. destruct (abortRef c) as [j|]; [|done].
    specialize (Hidle j). unfold in_flight in Hidle.
    destruct (calls c !! j) as [[k []]|] eqn:Hj; try discriminate; simpl; [|done].
    split; [done|]. unfold resume_at. simpl.
    apply list_eq. intros n. destruct (decide (n = j)) as [->|Hne].
    - by rewrite list_lookup_alter_eq, Hj.
    - by rewrite list_lookup_alter_ne. }
  destruct (abort_current_lengths c) as (_ & Hreq & _ & Hcache).
  set (c0 := generate queryType results c).
  assert (calls c0 = (calls c ++ [{| key := hashKey queryType results;
                                     at_await := AwaitFetch |}])%list
          /\ state c0 = loading /\ cache c0 = cache c
          /\ requests c0 = (requests c ++ [(queryType, results)])%list)
    as (Hc0 & Hs0 & Hca0 & Hr0).
  { unfold c0, Insight.generate. rewrite Hmiss, Habort. simpl.
    by rewrite Hcalls, Hreq, Hcache. }
  set (c0' := resume_at i (AwaitRead "") c0).
  assert (calls c0' !! i = Some {| key := hashKey queryType results;
                                    at_await := AwaitRead "" |}) as Hcall.
  { unfold c0'. simpl. rewrite list_lookup_alter_eq, Hc0.
    unfold i. by rewrite lookup_app_r, Nat.sub_diag. }
  destruct (run_reads chunks i _ "" c0' Hcall)
    as (c1 & Hrun & Hcall1 & Hst1 & Hca1 & Hre1 & _).
  destruct (read_all_text chunks "" loading eq_refl) as (Ht & Hl & He).
  assert (state c0' = loading) as Hs0' by exact Hs0.
  rewrite Hs0' in Hcall1, Hst1.
  assert (state c1 = {| text := accumulated; isLoading := true; error := None |})
    as Hstate1.
  { rewrite Hst1. unfold accumulated.
    destruct (snd (read_all chunks "" loading)) as [t l e]. simpl in *. congruence. }
  exists c1. eexists. split.
  { rewrite <- app_comm_cons. cbn [Insight.run Insight.step].
    fold c0. simpl app.
    cbn [Insight.run Insight.step]. rewrite Hc0.
    unfold i at 1. rewrite lookup_app_r, Nat.sub_diag by done. simpl.
    rewrite Hok. simpl. fold i. fold c0'. exact Hrun. }
  assert (cache c1 = cache c) as Hca1' by (rewrite Hca1; exact Hca0).
  assert (requests c1 = (requests c ++ [(queryType, results)])%list) as Hre1'
    by (rewrite Hre1; exact Hr0).
  split; [exact Hstate1|]. split; [exact Hca1'|]. split; [exact Hre1'|].
  cbn [Insight.step]. rewrite Hcall1. split; [reflexivity|].
  split; [done|]. split; [simpl; by rewrite Hca1'|]. split; [done|].
  rewrite in_flight_resume_at, decide_True by done. simpl. by rewrite Hcall1.
Qed.

(** ** A text cached under a truncated key *)







End Client.

Lemma one_call_in_flight_example :
  let es := [CallGenerate "impact" tt; FetchResponds 0 200 true;
             CallGenerate "risk" tt] in
  let c := default mount (run null_results parse_late no_conversion es mount) in
  abortRef c = Some 1 /\ length (requests c) = 2.
Proof.
  intros es c.
  assert (run null_results parse_late no_conversion es mount = Some c) as Hrun
    by (vm_compute; reflexivity).
  destruct (at_most_one_call_in_flight null_results parse_late no_conversion es c Hrun)
    as (_ & Hcur & Hlen).
  split; [apply Hcur; vm_compute; reflexivity|].
  rewrite Hlen. vm_compute. reflexivity.
Defined.

Lemma failure_caches_nothing_example :
  let run := run null_results parse_late no_conversion in
  let step := step null_results parse_late no_conversion in
  let c := default mount
             (run [CallGenerate "impact" tt; FetchResponds 0 404 true] mount) in
  let c' := default mount
              (step (ErrorBodyArrives 0 (Some [("detail", JStr "no such query")])) c) in
  is_Some (error (state c')) /\ isLoading (state c') = false /\ cache c' = cache c.
Proof.
  intros run step c c'.
  assert (step (ErrorBodyArrives 0 (Some [("detail", JStr "no such query")])) c
          = Some c') as Hstep by (vm_compute; reflexivity).
  destruct (failure_caches_nothing null_results parse_late no_conversion
              (ErrorBodyArrives 0 (Some [("detail", JStr "no such query")])) 0 c c'
              eq_refl eq_refl Hstep) as (He & Hl & _ & Hc & _).
  split; [exact He|]. split; [exact Hl | exact Hc].
Defined.

Lemma cache_written_example :
  let run := run null_results parse_late no_conversion in
  let step := step null_results parse_late no_conversion in
  let c := default mount
             (run [CallGenerate "impact" tt; FetchResponds 0 200 true;
                   ReadYields 0 (data_line (chunk_payload "late") ++ LF)] mount) in
  let c' := default mount (step (ReadEnds 0) c) in
  cache c' = cache c \/
  exists i k accumulated,
    @ReadEnds unit 0 = ReadEnds i /\
    calls c !! i = Some {| key := k; at_await := AwaitRead accumulated |} /\
    cache c' = <[k := accumulated]> (cache c).
Proof.
  intros run step c c'.
  assert (step (ReadEnds 0) c = Some c') as Hstep by (vm_compute; reflexivity).
  exact (proj1 (cache_written_at_end_only null_results parse_late no_conversion
                  (ReadEnds 0) c c' Hstep)).
Defined.

Lemma uninterrupted_call_example :
  let chunks := [data_line (chunk_payload "late") ++ LF; data_line "[DONE]" ++ LF] in
  let accumulated := fst (read_all parse_late no_conversion chunks "" loading) in
  exists c1 c2 : @Client unit,
    run null_results parse_late no_conversion
      ([CallGenerate "impact" tt; FetchResponds 0 200 true]
       ++ (ReadYields 0 <$> chunks)) mount = Some c1 /\
    state c1 = {| text := accumulated; isLoading := true; error := None |} /\
    cache c1 = cache (@mount unit) /\
    requests c1 = ([] ++ [("impact", tt)])%list /\
    step null_results parse_late no_conversion (ReadEnds 0) c1 = Some c2 /\
    state c2 = {| text := accumulated; isLoading := false; error := None |} /\
    cache c2 = <[hashKey null_results "impact" tt := accumulated]> (cache (@mount unit)) /\
    requests c2 = requests c1 /\
    in_flight c2 0 = false.
Proof.
  intros chunks accumulated.
  apply (uninterrupted_call_publishes_and_caches null_results parse_late no_conversion
           "impact" tt 200 chunks mount).
  - intros j. by destruct j.
  - vm_compute. reflexivity.
  - vm_compute. reflexivity.
Defined.


End InsightRuns.

(** * Properties of useWhatIf *)

Module WhatIfProps.
Import WhatIf.

Section Hook.

Context {Preset Response : Type}.
Variable scenario_type : Preset -> string.
Variable target_entity : Preset -> string.
Variable delay_months : Preset -> Z.

Local Abbreviation Hook := (@Hook Preset Response).
Local Abbreviation step := (@step Preset Response scenario_type target_entity delay_months).
Local Abbreviation run_disabled_while_loading :=
  (@run_disabled_while_loading Preset Response scenario_type target_entity delay_months).

Lemma one_request_step (e : Event) (h h' : Hook) :
  (isLoading h = false /\ pending h = 0 /\ (result h = None \/ error h = None)) \/
  (isLoading h = true /\ pending h = 1 /\ result h = None /\ error h = None) ->
  (match e with
   | CallExecute _ | CallExecutePreset _ _ => true
   | _ => false
   end) && isLoading h = false ->
  step e h = Some h' ->
  (isLoading h' = false /\ pending h' = 0 /\ (result h' = None \/ error h' = None)) \/
  (isLoading h' = true /\ pending h' = 1 /\ result h' = None /\ error h' = None).
Proof.
  intros Hinv Hallowed Hstep.
  destruct e; simpl in Hallowed, Hstep;
    repeat (case_match; try discriminate); injection Hstep as <-; simpl;
    destruct Hinv as [(Hl & Hp & Hre)|(Hl & Hp & Hr & He)];
    rewrite ?Hl, ?Hp, ?Hr, ?He in *; simpl in *;
    try discriminate; try lia; auto.
Qed.

(** X20.  While the panel keeps its buttons disabled during loading, so
    that no request is started while [isLoading], the hook has at most
    one request pending and [isLoading] is true exactly while it is;
    during loading [result] and [error] are both null, and at no time
    are both set. *)
Theorem one_request_at_a_time (es : list Event) (h : Hook) :
  run_disabled_while_loading es mount = Some h ->
  (isLoading h = true <-> pending h = 1) /\
  (isLoading h = false <-> pending h = 0) /\
  (isLoading h = true -> result h = None /\ error h = None) /\
  (result h = None \/ error h = None).
Proof.
  assert (forall h0 : Hook,
            (isLoading h0 = false /\ pending h0 = 0 /\
             (result h0 = None \/ error h0 = None)) \/
            (isLoading h0 = true /\ pending h0 = 1 /\ result h0 = None /\
             error h0 = None) ->
            run_disabled_while_loading es h0 = Some h ->
            (isLoading h = false /\ pending h = 0 /\
             (result h = None \/ error h = None)) \/
            (isLoading h = true /\ pending h = 1 /\ result h = None /\
             error h = None)) as Hgen.
  { induction es as [|e es IH]; simpl; intros h0 Hinv Hrun.
    - by injection Hrun as <-.
    - destruct (_ && isLoading h0) eqn:Hallowed; [discriminate|].
      destruct (step e h0) as [h1|] eqn:Hstep; [|discriminate].
      apply (IH h1); [by eapply one_request_step | done]. }
  intros Hrun.
  destruct (Hgen mount (or_introl (conj eq_refl (conj eq_refl (or_introl eq_refl))))
              Hrun) as [(Hl & Hp & Hre)|(Hl & Hp & Hr & He)];
    rewrite Hl, Hp; repeat split; try done; auto.
Qed.

End Hook.

Lemma one_request_example :
  let es := [CallExecute {| scenarioType := "supplier_delay"; targetEntity := "ASML";
                            delayMonths := 3; includeNarrative := false |};
             Rejects None; CallClear] in
  let h := default mount
             (@run_disabled_while_loading unit unit (fun _ => "") (fun _ => "")
                (fun _ => 0%Z) es mount) in
  result h = None \/ error h = None.
Proof.
  intros es h.
  destruct (@one_request_at_a_time unit unit (fun _ => "") (fun _ => "")
              (fun _ => 0%Z) es h eq_refl) as (_ & _ & _ & Hre).
  exact Hre.
Defined.

End WhatIfProps.

(** * Properties of renderInline *)

Module MarkdownProps.
Import Markdown.

Lemma append_String (a : ascii) (x y : string) :
  String a x ++ y = String a (x ++ y).
Proof. reflexivity. Qed.

Lemma append_assoc (x y z : string) : (x ++ y) ++ z = x ++ (y ++ z).
Proof. induction x as [|a x IH]; [done|]. by rewrite !append_String, IH. Qed.

Lemma startsWith_split (s p : string) :
  startsWith s p = true -> s = p ++ slice_from (String.length p) s.
Proof.
  revert s. induction p as [|b p IH]; intros s; simpl; [done|].
  destruct s as [|a s]; simpl; [done|].
  destruct (Ascii.eqb a b) eqn:E; [|done].
  apply Ascii.eqb_eq in E. subst b.
  intros H. rewrite append_String. f_equal. by apply IH.
Qed.

Lemma startsWith_app (x y p : string) :
  startsWith x p = true -> startsWith (x ++ y) p = true.
Proof.
  revert x. induction p as [|b p IH]; intros x; [by destruct (x ++ y)|].
  destruct x as [|a x]; simpl; [done|].
  destruct (Ascii.eqb a b); [apply IH | done].
Qed.

Lemma lazy_close_eq (s : string) :
  lazy_close s
  = if startsWith s "**" then Some (EmptyString, slice_from 2 s)
    else match s with
         | EmptyString => None
         | String a s' =>
             if is_line_terminator a then None
             else match lazy_close s' with
                  | Some (content, rest) => Some (String a content, rest)
                  | None => None
                  end
         end.
Proof. by destruct s. Qed.

Lemma exec_eq (a : ascii) (s' : string) :
  exec (String a s')
  = match (if startsWith (String a s') "**"
           then lazy_close (slice_from 2 (String a s')) else None) with
    | Some (content, rest) => Some (EmptyString, content, rest)
    | None => match exec s' with
              | Some (before, content, rest) => Some (String a before, content, rest)
              | None => None
              end
    end.
Proof. reflexivity. Qed.

Lemma lazy_close_spec (s content rest : string) :
  lazy_close s = Some (content, rest) ->
  s = content ++ "**" ++ rest /\
  dot_matches content = true /\
  occurs "**" content = false.
Proof.
  revert content rest. induction s as [|a s IH]; intros content rest;
    rewrite lazy_close_eq.
  - done.
  - destruct (startsWith (String a s) "**") eqn:Hstart.
    + intros [= <- <-]. split; [|done].
      by apply (startsWith_split (String a s) "**").
    + destruct (is_line_terminator a) eqn:Ha; [done|].
      destruct (lazy_close s) as [[c r]|] eqn:Hc; [|done].
      intros [= <- <-]. destruct (IH c r eq_refl) as (Hs & Hdot & Hocc).
      split; [simpl; by rewrite Hs|]. split; [simpl; by rewrite Ha|].
      cbn [occurs]. rewrite Hocc, orb_false_r.
      destruct (startsWith (String a c) "**") eqn:Hc'; [|done].
      apply (startsWith_app _ ("**" ++ r)) in Hc'.
      simpl in Hc'. rewrite <- Hs in Hc'. simpl in Hstart. congruence.
Qed.

Lemma exec_spec (s before content rest : string) :
  exec s = Some (before, content, rest) ->
  s = before ++ "**" ++ content ++ "**" ++ rest /\
  dot_matches content = true /\
  occurs "**" content = false.
Proof.
  revert before. induction s as [|a s IH]; intros before; [done|].
  rewrite exec_eq.
  destruct (startsWith (String a s) "**") eqn:Hstart.
  - destruct (lazy_close (slice_from 2 (String a s))) as [[c r]|] eqn:Hc.
    + intros [= <- <- <-]. destruct (lazy_close_spec _ _ _ Hc) as (Hs & Hd & Ho).
      split; [|done]. rewrite <- Hs.
      by apply (startsWith_split (String a s) "**").
    + destruct (exec s) as [[[b c] r]|]; [|done].
      intros [= <- <- <-]. destruct (IH b eq_refl) as (Hs & Hd & Ho).
      split; [simpl; by rewrite Hs | done].
  - destruct (exec s) as [[[b c] r]|]; [|done].
    intros [= <- <- <-]. destruct (IH b eq_refl) as (Hs & Hd & Ho).
    split; [simpl; by rewrite Hs | done].
Qed.

Lemma length_append (x y : string) :
  String.length (x ++ y) = String.length x + String.length y.
Proof. induction x as [|a x IH]; simpl; [done | by rewrite IH]. Qed.

(** A match takes at least four characters. *)
Lemma exec_shorter (s before content rest : string) :
  exec s = Some (before, content, rest) ->
  String.length rest + 4 <= String.length s.
Proof.
  intros H. destruct (exec_spec _ _ _ _ H) as (-> & _).
  rewrite !length_append. simpl. lia.
Qed.

(** The fuel is never used up. *)
Lemma parts_from_fuel (n m : nat) (s : string) :
  String.length s <= n -> String.length s <= m -> parts_from n s = parts_from m s.
Proof.
  revert m s. induction n as [|n IH]; intros m s Hn Hm.
  - destruct s; [|simpl in Hn; lia]. by destruct m.
  - destruct m as [|m].
    + destruct s; [done | simpl in Hm; lia].
    + simpl. destruct (exec s) as [[[b c] r]|] eqn:He; [|done].
      apply exec_shorter in He. f_equal. f_equal. apply IH; lia.
Qed.

Lemma sources_app (l1 l2 : list Part) :
  sources (l1 ++ l2) = sources l1 ++ sources l2.
Proof.
  induction l1 as [|p l1 IH]; simpl; [done|].
  rewrite IH. by rewrite append_assoc.
Qed.

Lemma sources_plain (s : string) : sources (plain s) = s.
Proof.
  destruct s as [|a s]; [done|]. unfold plain, sources. simpl.
  rewrite append_String. f_equal.
  induction s as [|b s IH]; [done | by rewrite append_String, IH].
Qed.

Lemma parts_from_sources (fuel : nat) (s : string) :
  sources (parts_from fuel s) = s.
Proof.
  revert s. induction fuel as [|fuel IH]; intros s; simpl; [apply sources_plain|].
  destruct (exec s) as [[[b c] r]|] eqn:He; [|apply sources_plain].
  destruct (exec_spec _ _ _ _ He) as (Hs & _).
  rewrite sources_app, sources_plain. simpl. fold (sources (parts_from fuel r)).
  rewrite IH, Hs. by rewrite !append_assoc.
Qed.

(** X21.  [renderInline] loses nothing: writing every plain part as it is
    and every bold part between two pairs of stars gives the text back.
    A text in which two stars never follow one another is rendered as
    that one string. *)
Theorem renderInline_round_trip (text : string) :
  sources (renderInline text) = text /\
  (occurs "**" text = false -> renderInline text = [Plain text]).
Proof.
  split.
  - unfold renderInline.
    pose proof (parts_from_sources (String.length text) text) as Hs.
    destruct (parts_from (String.length text) text) as [|p l]; [|done].
    simpl in *. by rewrite <- Hs.
  - intros Hno. unfold renderInline.
    assert (exec text = None) as He.
    { induction text as [|a text IH]; [done|].
      rewrite exec_eq. cbn [occurs] in Hno. apply orb_false_iff in Hno as [H1 H2].
      by rewrite H1, IH. }
    destruct text as [|a text]; [done|].
    cbn [String.length parts_from]. by rewrite He.
Qed.

Lemma plain_no_bold (s content : string) : ~ In (Bold content) (plain s).
Proof. destruct s; simpl; [tauto|]. intros [H|[]]. discriminate. Qed.

Lemma plain_not_empty (s : string) : ~ In (Plain "") (plain s).
Proof. destruct s; simpl; [tauto|]. intros [H|[]]. discriminate. Qed.

Lemma parts_from_bold (fuel : nat) (s content : string) :
  In (Bold content) (parts_from fuel s) ->
  dot_matches content = true /\ occurs "**" content = false.
Proof.
  revert s. induction fuel as [|fuel IH]; intros s; simpl.
  - intros Hin. by apply plain_no_bold in Hin.
  - destruct (exec s) as [[[b c] r]|] eqn:He.
    + destruct (exec_spec _ _ _ _ He) as (_ & Hd & Ho).
      rewrite in_app_iff. intros [Hin|[Heq|Hin]].
      * by apply plain_no_bold in Hin.
      * by injection Heq as <-.
      * by apply (IH r).
    + intros Hin. by apply plain_no_bold in Hin.
Qed.

(** X22.  The text of a bold part holds no line break and no two stars
    in a row: a bold span ends at the first pair of stars after its
    opening ones and never runs over the end of a line.  A plain part is
    never empty, unless the whole text is. *)
Theorem renderInline_parts_well_formed (text : string) :
  (forall content, In (Bold content) (renderInline text) ->
     dot_matches content = true /\ occurs "**" content = false) /\
  (In (Plain "") (renderInline text) -> text = "").
Proof.
  unfold renderInline. split.
  - intros content.
    pose proof (parts_from_bold (String.length text) text content) as Hb.
    destruct (parts_from (String.length text) text) as [|p l]; [|done].
    intros [H|[]]. discriminate.
  - assert (forall fuel s, ~ In (Plain "") (parts_from fuel s)) as Hne.
    { induction fuel as [|fuel IH]; intros s; simpl.
      - apply plain_not_empty.
      - destruct (exec s) as [[[b c] r]|]; [|apply plain_not_empty].
        rewrite in_app_iff. intros [Hin|[Heq|Hin]].
        + by apply plain_not_empty in Hin.
        + discriminate.
        + by apply (IH r). }
    specialize (Hne (String.length text) text).
    destruct (parts_from (String.length text) text) as [|p l]; [|done].
    intros [Heq|[]]. by injection Heq.
Qed.

End MarkdownProps.
